(** * Kinetics modeler and document accessor of the EnzymeML workflow notebooks

    A shallow embedding of [utilities/modeler.py] and of the time-series
    lookup of [utilities/jsonhelper.py], with the properties their
    specification states about them.

    Numbers.  The Python code computes on [float64].  The embedding computes
    on the canonical rationals [Qc]: every arithmetic step is exact, and
    equality is Leibniz equality, so a list of numbers is compared with [=].
    Operations which leave the finite numbers in numpy (a division by zero,
    the mean of zero rows: numpy answers [inf] or [nan] with a
    RuntimeWarning) are results of the error monad below, kind [NotFinite].

    Arrays.  A 1-D numpy array is a [list Qc]; a 2-D array is the list of
    its rows, all of one length.  Python dictionaries which are only looked
    up are [gmap string _]; those whose order of insertion is observable are
    association lists. *)

From Stdlib Require Import QArith Qcanon Qcabs Qround Sorted.
From stdpp Require Import gmap strings list fin_maps numbers sorting.

Open Scope Qc_scope.
Open Scope list_scope.

(** ** Exceptions and results *)

(** The exceptions the modelled code can raise.  [NotFoundError] is the kind
    named by the interface description of the document accessor. *)
Inductive exn : Set :=
  | KeyError
  | IndexError
  | ValueError
  | NotFinite
  | NotFoundError.

#[global] Instance exn_eq_dec : EqDecision exn.
Proof. solve_decision. Defined.

Inductive result (A : Type) : Type :=
  | Ok (a : A)
  | Err (e : exn).
Arguments Ok {A} a.
Arguments Err {A} e.

#[global] Instance result_eq_dec `{EqDecision A} : EqDecision (result A).
Proof. solve_decision. Defined.

#[global] Instance result_ret : MRet result := λ A a, Ok a.
#[global] Instance result_bind : MBind result := λ A B k r,
  match r with
  | Ok a => k a
  | Err e => Err e
  end.
#[global] Instance result_fmap : FMap result := λ A B g r,
  match r with
  | Ok a => Ok (g a)
  | Err e => Err e
  end.

(** [try: body except KeyError: handler] *)
Definition try_except_KeyError {A} (body handler : result A) : result A :=
  match body with
  | Err KeyError => handler
  | r => r
  end.

(** [for x in xs: s = body x s], stopping at the first exception. *)
Fixpoint for_each {A S : Type} (xs : list A) (body : A → S → result S) (s : S)
  : result S :=
  match xs with
  | [] => Ok s
  | x :: xs' => s' ← body x s; for_each xs' body s'
  end.

(** ** Numbers *)

(** A decimal literal: [dec 248 10] is 24.8. *)
Definition dec (n : Z) (d : positive) : Qc := Q2Qc (n # d).

Definition Qc_of_nat (n : nat) : Qc := Q2Qc (inject_Z (Z.of_nat n)).

Definition Qcmax (x y : Qc) : Qc := if decide (x < y) then y else x.

(** Float division: a zero divisor leaves the finite numbers. *)
Definition fdiv (x y : Qc) : result Qc :=
  if decide (y = 0) then Err NotFinite else Ok (x / y).

(** Python's [round(x, ndigits)] on a float: the nearest multiple of
    [10^-ndigits], a tie going to the even multiple. *)
Definition round_half_even (y : Qc) : Z :=
  let fl := Qfloor y in
  let frac := y - Q2Qc (inject_Z fl) in
  if decide (frac < dec 1 2) then fl
  else if decide (dec 1 2 < frac) then (fl + 1)%Z
  else if Z.even fl then fl else (fl + 1)%Z.

Definition round (x : Qc) (ndigits : nat) : Qc :=
  let scale := Q2Qc (inject_Z (10 ^ Z.of_nat ndigits)) in
  Q2Qc (inject_Z (round_half_even (x * scale))) / scale.

(** ** Arrays *)

(** [l[i]] for [0 <= i] *)
Definition index {A} (l : list A) (i : nat) : result A :=
  match l !! i with
  | Some x => Ok x
  | None => Err IndexError
  end.

(** [l[-1]] *)
Definition index_last {A} (l : list A) : result A :=
  match last l with
  | Some x => Ok x
  | None => Err IndexError
  end.

Definition sum (l : list Qc) : Qc := foldr Qcplus 0 l.

(** [m[:, j]] read with a default; used on arrays whose rows have a [j]. *)
Definition column (j : nat) (m : list (list Qc)) : list Qc :=
  map (λ r, nth j r 0) m.

(** [np.mean(m, axis=0)]: one mean per column.  With no row numpy divides
    zero by zero. *)
Definition mean_axis0 (m : list (list Qc)) : result (list Qc) :=
  match m with
  | [] => Err NotFinite
  | r0 :: _ =>
      Ok (map (λ j, sum (column j m) / Qc_of_nat (length m)) (seq 0 (length r0)))
  end.

(** [np.max(v)] *)
Definition np_max (v : list Qc) : result Qc :=
  match v with
  | [] => Err ValueError
  | x :: v' => Ok (foldl Qcmax x v')
  end.

(** [np.where(v == m)[0]]: the indices holding [m], in increasing order;
    [k] is the index of the head of [v]. *)
Fixpoint where_eq_from (k : nat) (v : list Qc) (m : Qc) : list nat :=
  match v with
  | [] => []
  | x :: v' =>
      if decide (x = m) then k :: where_eq_from (S k) v' m
      else where_eq_from (S k) v' m
  end.

Definition np_where_eq (v : list Qc) (m : Qc) : list nat := where_eq_from 0 v m.

(** [l.argmin()]: the first index of the least element. *)
Fixpoint argmin_from (best_i : nat) (best : Qc) (k : nat) (l : list Qc) : nat :=
  match l with
  | [] => best_i
  | x :: l' =>
      if decide (x < best) then argmin_from k x (S k) l'
      else argmin_from best_i best (S k) l'
  end.

Definition np_argmin (l : list Qc) : result nat :=
  match l with
  | [] => Err ValueError
  | x :: l' => Ok (argmin_from 0 x 1 l')
  end.

(** [a - b] on 1-D arrays with numpy's broadcasting. *)
Definition np_sub (a b : list Qc) : result (list Qc) :=
  if decide (length a = length b) then Ok (zip_with Qcminus a b)
  else match a, b with
       | [x], _ => Ok (map (λ y, x - y) b)
       | _, [y] => Ok (map (λ x, x - y) a)
       | _, _ => Err ValueError
       end.

(** [m[i,:] = v]: [v] has the length of the row or is broadcast from one
    element. *)
Definition set_row (m : list (list Qc)) (i : nat) (v : list Qc)
  : result (list (list Qc)) :=
  row ← index m i;
  if decide (length v = length row) then Ok (<[i:=v]> m)
  else match v with
       | [x] => Ok (<[i:=map (λ _, x) row]> m)
       | _ => Err ValueError
       end.

(** [np.transpose(np.array(table))] on a list of rows of one length. *)
Fixpoint transpose {A} (m : list (list A)) : list (list A) :=
  match m with
  | [] => []
  | [r] => map (λ x, [x]) r
  | r :: m' => zip_with cons r (transpose m')
  end.

(** [np.array(rows)] on a list of lists of numbers: the 2-D array of these
    rows when they have one length.  When they do not, numpy (from version
    1.24 on) raises [ValueError] for the inhomogeneous shape; earlier
    versions warn and build an array of list objects. *)
Definition np_array_2d (rows : list (list Qc)) : result (list (list Qc)) :=
  match rows with
  | [] => Ok []
  | r0 :: rest =>
      if forallb (λ r, Nat.eqb (length r) (length r0)) rest then Ok rows
      else Err ValueError
  end.

(** [params[key].value] and [d[key]] on a dictionary *)
Definition getitem {V} (d : gmap string V) (key : string) : result V :=
  match d !! key with
  | Some v => Ok v
  | None => Err KeyError
  end.

(** * The modeler *)

Module Modeler.

(** ** Residuals between measured and modelled data *)

(** Which residual function [fit_model] passed to the minimizer. *)
Inductive residual_path : Set := BiasPath | PlainPath.

Section Fitting.

(** The right-hand sides [f] of the ODEs, and scipy's [odeint]: one state
    vector per time point, or the exception raised while integrating. *)
Variable ode : Type.
Variable odeint :
  ode → list Qc → list Qc → gmap string Qc → result (list (list Qc)).

(** lmfit's [minimize(fcn, params, args, method='leastsq')] with its
    result type: it is given the residual function of the parameters. *)
Variable fitted : Type.
Variable minimize :
  (gmap string Qc → result (list Qc)) → gmap string Qc → result fitted.

Definition solveODE (f : ode) (t w0 : list Qc) (params : gmap string Qc)
  : result (list (list Qc)) :=
  odeint f w0 t params.

Definition _residual_with_bias (params : gmap string Qc) (t : list Qc)
    (data : list (list Qc)) (f : ode) : result (list Qc) :=
  '(w0, nW) ← try_except_KeyError
    (v0 ← getitem params "v0"; s0 ← getitem params "S0"; Ok ([v0; s0], 1%nat))
    (s0 ← getitem params "S0"; Ok ([s0], 0%nat));
  let ndata := length data in
  let residual := map (map (Qcmult 0)) data in
  residual ← for_each (seq 0 ndata) (λ i residual,
    model ← solveODE f t w0 params;
    s_model ← mapM (λ w, index w nW) model;
    bias ← getitem params "bias";
    let s_model_bias := map (λ s, s + bias) s_model in
    row ← index data i;
    diff ← np_sub row s_model_bias;
    set_row residual i diff) residual;
  Ok (concat residual).

Definition _residual (params : gmap string Qc) (t : list Qc)
    (data : list (list Qc)) (f : ode) : result (list Qc) :=
  '(w0, nW) ← try_except_KeyError
    (v0 ← getitem params "v0"; s0 ← getitem params "S0"; Ok ([v0; s0], 1%nat))
    (s0 ← getitem params "S0"; Ok ([s0], 0%nat));
  let ndata := length data in
  let residual := map (map (Qcmult 0)) data in
  residual ← for_each (seq 0 ndata) (λ i residual,
    model ← solveODE f t w0 params;
    s_model ← mapM (λ w, index w nW) model;
    row ← index data i;
    diff ← np_sub row s_model;
    set_row residual i diff) residual;
  Ok (concat residual).

(** [fit_model]: the [try] block holds the lookup of [bias] and the call
    of the minimizer, so a [KeyError] raised by either one reaches the
    [except] clause.  The first component of the result lists the residual
    functions handed to [minimize], in the order of the calls. *)
Definition fit_model (t : list Qc) (data : list (list Qc))
    (params : gmap string Qc) (f : ode)
  : list residual_path * result fitted :=
  match getitem params "bias" with
  | Ok b =>
      match minimize (λ p, _residual_with_bias p t data f) params with
      | Err KeyError =>
          ([BiasPath; PlainPath], minimize (λ p, _residual p t data f) params)
      | result => ([BiasPath], result)
      end
  | Err KeyError =>
      ([PlainPath], minimize (λ p, _residual p t data f) params)
  | Err e => ([], Err e)
  end.

End Fitting.

(** ** Initial guesses from the raw data *)

(** The inner loop of [_get_v] over the time indices [js] of one replicate
    [row]; [prev_value] and [prev_time] are the loop-carried variables, the
    result is the row of [v_all] the loop fills. *)
Fixpoint gradient_row (t row : list Qc) (js : list nat)
    (prev_value prev_time : Qc) : result (list Qc) :=
  match js with
  | [] => Ok []
  | j :: js' =>
      tj ← index t j;
      x ← index row j;
      delta ← (if decide (tj = 0) then Ok (prev_value - x)
               else q ← fdiv (prev_value - x) (tj - prev_time); Ok (Qcabs q));
      rest ← gradient_row t row js' x tj;
      Ok (delta :: rest)
  end.

(** [data.shape[1]] is the length of every row. *)
Definition _get_v (t : list Qc) (data : list (list Qc)) : result (list Qc) :=
  v_all ← mapM (λ row,
    prev_value ← index row 0;
    let prev_time := 0 in
    gradient_row t row (seq 0 (length row)) prev_value prev_time) data;
  mean_axis0 v_all.

Definition get_initial_vmax (t : list Qc) (data : list (list Qc)) : result Qc :=
  v ← _get_v t data; np_max v.

Definition get_initial_bias (data : list (list Qc)) : result Qc :=
  m ← mean_axis0 data; index_last m.

Definition get_initial_S0 (data : list (list Qc)) : result Qc :=
  m ← mean_axis0 data; index m 0.

Definition get_initial_Km (t : list Qc) (data : list (list Qc)) : result Qc :=
  v ← _get_v t data;
  vmax ← np_max v;
  idx_max ← index (np_where_eq v vmax) 0;
  idx_Km ← np_argmin (map (λ x, Qcabs (x - vmax / dec 2 1)) (drop idx_max v));
  means ← mean_axis0 data;
  km ← index means (idx_max + idx_Km);
  bias ← get_initial_bias data;
  Ok (if decide (bias < km) then km - bias else km).

(** ** Conversion to concentrations and the table of parameters *)

Definition epsilon : Qc := dec 248 10.
Definition d : Qc := 1.

Definition convert_to_conc (absorption : Qc) : Qc :=
  absorption / (epsilon * d) * dec 1000 1.

(** An entry of the list [inner_array]: the marker ['-'] or a number. *)
Inductive cell : Set :=
  | Dash
  | Num (value : Qc).

#[global] Instance cell_eq_dec : EqDecision cell.
Proof. solve_decision. Defined.

(** An entry of the array [np.array(table)]: a float in an array of floats;
    in an array of strings the marker ['-'] or the text numpy makes of a
    float (['40.323'] of 40.323, ['5.0'] of 5.0). *)
Inductive array_entry : Set :=
  | Float (value : Qc)
  | DashText
  | FloatText (value : Qc).

#[global] Instance array_entry_eq_dec : EqDecision array_entry.
Proof. solve_decision. Defined.

Definition is_dash (c : cell) : bool :=
  match c with
  | Dash => true
  | Num _ => false
  end.

Definition to_entry (strings : bool) (c : cell) : array_entry :=
  match c with
  | Dash => DashText
  | Num value => if strings then FloatText value else Float value
  end.

(** [np.array(table)] on the list of the lists [inner_array]: an array of
    floats when every entry is a number; as soon as one entry is the
    marker ['-'] numpy makes an array of strings, and every number of the
    table becomes its text. *)
Definition np_array_table (table : list (list cell)) : list (list array_entry) :=
  map (map (to_entry (existsb (existsb is_dash) table))) table.

Definition rows : list string := ["S0"; "bias"; "vmax"; "Km"; "a"].

Definition row_labels : list string :=
  ["S0 [mmol/L]"; "bias [mmol/L]"; "vmax [M/min]"; "Km [mmol/L]"; "a [1/min]"].

(** The body of the inner loop: the entry of one fit result for [key]. *)
Definition table_entry (item : gmap string Qc) (key : string) : cell :=
  match item !! key with
  | None => Dash
  | Some value =>
      let value :=
        if decide (¬ (key = "vmax" ∨ key = "a")) then convert_to_conc value
        else value in
      Num (round value 3)
  end.

(** [results] is the dictionary of fit results in the order of its items,
    each with the [valuesdict()] of its parameters. *)
Definition get_table_data (results : list (string * gmap string Qc))
  : list (list array_entry) * list string * list string :=
  let '(columns, table) :=
    foldl (λ '(columns, table) '(key, item),
             (columns ++ [key], table ++ [map (table_entry item) rows]))
          ([], []) results in
  (transpose (np_array_table table), columns, row_labels).

End Modeler.

(** * The document accessor *)

Module EnzymeMLDocJSON.

(** The parts of the JSON document the class reads. *)
Record replicate := {
  rep_time : list Qc;   (* rep['time'] *)
  rep_data : list Qc    (* rep['data'] *)
}.

Record participant := {
  species : string;
  replicates : list replicate
}.

Record reaction := {
  reaction_id : string;
  reaction_name : string;
  educts : list participant;
  products : list participant;
  modifiers : list participant
}.

Record document := {
  name : string;
  protein : list (string * string);    (* id and name *)
  reactant : list (string * string);   (* id and name *)
  reactions : list reaction            (* the entry 'reaction' *)
}.

(** The values stored in [typeDic]: the keys of a reaction which list its
    participants. *)
Inductive role : Set := Educts | Products | Modifiers.

(** [reac[role]] *)
Definition participants (reac : reaction) (ty : role) : list participant :=
  match ty with
  | Educts => educts reac
  | Products => products reac
  | Modifiers => modifiers reac
  end.

(** A dictionary whose items are iterated: the items in the order of their
    first insertion. *)
Fixpoint dict_set {V} (d : list (string * V)) (key : string) (v : V)
  : list (string * V) :=
  match d with
  | [] => [(key, v)]
  | (k, w) :: d' =>
      if decide (k = key) then (k, v) :: d' else (k, w) :: dict_set d' key v
  end.

Fixpoint dict_getitem {V} (d : list (string * V)) (key : string) : result V :=
  match d with
  | [] => Err KeyError
  | (k, w) :: d' => if decide (k = key) then Ok w else dict_getitem d' key
  end.

(** The four dictionaries are attributes of the class: every document
    object reads and writes the same four. *)
Record registries := {
  protDic : gmap string string;
  reactantDic : gmap string string;
  reactionDic : list (string * reaction);
  typeDic : gmap string role
}.

Definition empty_registries : registries :=
  {| protDic := ∅; reactantDic := ∅; reactionDic := []; typeDic := ∅ |}.

Definition _setProteinDic (doc : document) (protDic : gmap string string)
  : gmap string string :=
  foldl (λ dic p, <[p.1 := p.2]> dic) protDic (protein doc).

Definition _setReactantDic (doc : document) (reactantDic : gmap string string)
  : gmap string string :=
  foldl (λ dic r, <[r.1 := r.2]> dic) reactantDic (reactant doc).

Definition _setReactionDic (doc : document)
    (reactionDic : list (string * reaction)) : list (string * reaction) :=
  foldl (λ dic r, dict_set dic (reaction_id r) r) reactionDic (reactions doc).

(** A loop whose body updates a dictionary and may raise: the updates made
    before the exception stay. *)
Fixpoint for_each_keep {A S : Type} (xs : list A)
    (body : A → S → S * result ()) (s : S) : S * result () :=
  match xs with
  | [] => (s, Ok ())
  | x :: xs' =>
      match body x s with
      | (s', Ok _) => for_each_keep xs' body s'
      | (s', Err e) => (s', Err e)
      end
  end.

(** The loops of [__str__] over the reactions.  The text it builds is not
    kept; its lookups, which may raise, and its writes to [typeDic] are. *)
Definition __str__ (protDic reactantDic : gmap string string)
    (reactionDic : list (string * reaction)) (typeDic : gmap string role)
  : gmap string role * result () :=
  for_each_keep reactionDic (λ '(id, reac) typeDic,
    match for_each_keep (educts reac) (λ educt typeDic,
            match getitem reactantDic (species educt) with
            | Ok _ => (<[species educt := Educts]> typeDic, Ok ())
            | Err e => (typeDic, Err e)
            end) typeDic with
    | (typeDic, Err e) => (typeDic, Err e)
    | (typeDic, Ok _) =>
    match for_each_keep (products reac) (λ product typeDic,
            match getitem reactantDic (species product) with
            | Ok _ => (<[species product := Products]> typeDic, Ok ())
            | Err e => (typeDic, Err e)
            end) typeDic with
    | (typeDic, Err e) => (typeDic, Err e)
    | (typeDic, Ok _) =>
        for_each_keep (modifiers reac) (λ modifier typeDic,
          let typeDic :=
            match getitem reactantDic (species modifier) with
            | Ok _ => <[species modifier := Modifiers]> typeDic
            | Err _ => typeDic
            end in
          let typeDic :=
            match getitem protDic (species modifier) with
            | Ok _ => <[species modifier := Modifiers]> typeDic
            | Err _ => typeDic
            end in
          (typeDic, Ok ())) typeDic
    end end) typeDic.

(** [EnzymeMLDocJSON(JSON)] for a parsed document, on the dictionaries of the
    class as earlier documents left them. *)
Definition __init__ (cls : registries) (doc : document)
  : registries * result () :=
  let protDic := _setProteinDic doc (protDic cls) in
  let reactantDic := _setReactantDic doc (reactantDic cls) in
  let reactionDic := _setReactionDic doc (reactionDic cls) in
  let '(typeDic, r) := __str__ protDic reactantDic reactionDic (typeDic cls) in
  ({| protDic := protDic; reactantDic := reactantDic;
      reactionDic := reactionDic; typeDic := typeDic |}, r).

(** [getData]: [np.array(time)] keeps the list of times; [np.array(data)]
    makes the 2-D array of the data rows, and fails on rows of unequal
    length. *)
Definition getData (self : registries) (reaction species_id : string)
  : result (list Qc * list (list Qc)) :=
  reac ← dict_getitem (reactionDic self) reaction;
  ty ← getitem (typeDic self) species_id;
  let '(time, data) :=
    foldl (λ '(time, data) reactant,
             if decide (species reactant = species_id) then
               foldl (λ '(time, data) rep, (rep_time rep, data ++ [rep_data rep]))
                     (time, data) (replicates reactant)
             else (time, data))
          ([], []) (participants reac ty) in
  data ← np_array_2d data;
  Ok (time, data).

(** The pair is in a document when the reaction is one of its reactions and
    the species is one of that reaction's educts, products or modifiers. *)
Definition takes_part (species_id : string) (reac : reaction) : Prop :=
  species_id ∈ map species (educts reac ++ products reac ++ modifiers reac).

Definition pair_present (doc : document) (reaction species_id : string) : Prop :=
  ∃ reac, reac ∈ reactions doc ∧ reaction_id reac = reaction
          ∧ takes_part species_id reac.

End EnzymeMLDocJSON.

(** * Vocabulary of the statements *)

(** The number of columns of a 2-D array with at least one row. *)
Definition ncols (data : list (list Qc)) : nat :=
  match data with
  | [] => 0
  | r0 :: _ => length r0
  end.

(** The replicate matrix has one column per time point. *)
Definition aligned (t : list Qc) (data : list (list Qc)) : Prop :=
  Forall (λ row, length row = length t) data.

(** The mean of column [j] over the replicates. *)
Definition column_mean (data : list (list Qc)) (j : nat) : Qc :=
  sum (column j data) / Qc_of_nat (length data).

(** The measurements of the scenario [t = [0, 1, 2, 3]],
    [data = [[0, 1, 2, 2], [0, 1.2, 1.8, 2.1]]]. *)
Definition scenario_t : list Qc := [dec 0 1; dec 1 1; dec 2 1; dec 3 1].
Definition scenario_data : list (list Qc) :=
  [ [dec 0 1; dec 1 1; dec 2 1; dec 2 1];
    [dec 0 1; dec 12 10; dec 18 10; dec 21 10] ].

(** The solution of the ODE with right-hand side 0: the initial state at
    every time point. *)
Definition odeint_constant (f : ()) (w0 t : list Qc) (params : gmap string Qc)
  : result (list (list Qc)) :=
  Ok (map (λ _, w0) t).

(** A minimizer which stops after the first evaluation of the residual
    function at the initial parameters. *)
Definition minimize_once (fcn : gmap string Qc → result (list Qc))
    (params : gmap string Qc) : result (gmap string Qc * list Qc) :=
  residual ← fcn params; Ok (params, residual).

(** A document with two reactions: [s1] is the educt of [r1], [s2] the
    educt of [r2]. *)
Definition two_reactions : EnzymeMLDocJSON.document :=
  {| EnzymeMLDocJSON.name := "two reactions";
     EnzymeMLDocJSON.protein := [("p1", "enzyme")];
     EnzymeMLDocJSON.reactant := [("s1", "pyruvate"); ("s2", "lactate")];
     EnzymeMLDocJSON.reactions :=
       [ {| EnzymeMLDocJSON.reaction_id := "r1";
            EnzymeMLDocJSON.reaction_name := "first";
            EnzymeMLDocJSON.educts :=
              [ {| EnzymeMLDocJSON.species := "s1";
                   EnzymeMLDocJSON.replicates :=
                     [ {| EnzymeMLDocJSON.rep_time := [dec 0 1; dec 1 1];
                          EnzymeMLDocJSON.rep_data := [dec 2 1; dec 1 1] |} ] |} ];
            EnzymeMLDocJSON.products := [];
            EnzymeMLDocJSON.modifiers := [] |};
         {| EnzymeMLDocJSON.reaction_id := "r2";
            EnzymeMLDocJSON.reaction_name := "second";
            EnzymeMLDocJSON.educts :=
              [ {| EnzymeMLDocJSON.species := "s2";
                   EnzymeMLDocJSON.replicates :=
                     [ {| EnzymeMLDocJSON.rep_time := [dec 0 1; dec 1 1];
                          EnzymeMLDocJSON.rep_data := [dec 3 1; dec 2 1] |} ] |} ];
            EnzymeMLDocJSON.products := [];
            EnzymeMLDocJSON.modifiers := [] |} ] |}.

(** The index of the substrate in the state vector, and the initial state,
    for parameters with the initial substrate concentration [s0]. *)
Definition S_index (params : gmap string Qc) : nat :=
  match params !! "v0" with
  | Some _ => 1
  | None => 0
  end.

Definition initial_state (params : gmap string Qc) (s0 : Qc) : list Qc :=
  match params !! "v0" with
  | Some v0 => [v0; s0]
  | None => [s0]
  end.

(** What [odeint] promises of the array it returns: one state vector per
    time point, each of the size of the initial state. *)
Definition odeint_shape {ode : Type}
    (odeint : ode → list Qc → list Qc → gmap string Qc → result (list (list Qc)))
  : Prop :=
  ∀ f w0 t params model,
    odeint f w0 t params = Ok model →
    length model = length t ∧ Forall (λ w, length w = length w0) model.

(** The model curve the measurements are compared with: the substrate
    column of the solution of the ODE, with the bias added when there is
    one. *)
Definition model_curve {ode : Type}
    (odeint : ode → list Qc → list Qc → gmap string Qc → result (list (list Qc)))
    (with_bias : bool) (params : gmap string Qc) (t w0 : list Qc) (nW : nat)
    (f : ode) : result (list Qc) :=
  model ← Modeler.solveODE ode odeint f t w0 params;
  s_model ← mapM (λ w, index w nW) model;
  if with_bias
  then bias ← getitem params "bias"; Ok (map (λ s, s + bias) s_model)
  else Ok s_model.

(** The residuals computed the other way the design note allows: the model
    curve is computed once, then subtracted from the whole array [data] by
    broadcasting, [data - curve]. *)
Definition residual_broadcast {ode : Type}
    (odeint : ode → list Qc → list Qc → gmap string Qc → result (list (list Qc)))
    (with_bias : bool) (params : gmap string Qc) (t : list Qc)
    (data : list (list Qc)) (f : ode) : result (list Qc) :=
  '(w0, nW) ← try_except_KeyError
    (v0 ← getitem params "v0"; s0 ← getitem params "S0"; Ok ([v0; s0], 1%nat))
    (s0 ← getitem params "S0"; Ok ([s0], 0%nat));
  curve ← model_curve odeint with_bias params t w0 nW f;
  residual ← mapM (λ row, np_sub row curve) data;
  Ok (concat residual).

(** A time vector: non-negative and strictly increasing. *)
Definition time_vector (t : list Qc) : Prop :=
  Forall (Qcle 0) t ∧ Sorted Qclt t.

(** The value and the time before index [j] of a row: the measurement and
    the time at [j - 1], and at [j = 0] the first measurement and time 0. *)
Definition prev_value (row : list Qc) (j : nat) : Qc :=
  match j with
  | 0 => nth 0 row 0
  | S j' => nth j' row 0
  end.

Definition prev_time (t : list Qc) (j : nat) : Qc :=
  match j with
  | 0 => 0
  | S j' => nth j' t 0
  end.

(** The delta of a row at index [j]: the difference where [t[j]] is zero,
    the absolute rate elsewhere. *)
Definition delta (t row : list Qc) (j : nat) : Qc :=
  if decide (nth j t 0 = 0) then prev_value row j - nth j row 0
  else Qcabs ((prev_value row j - nth j row 0) / (nth j t 0 - prev_time t j)).

Definition deltas (t : list Qc) (data : list (list Qc)) : list (list Qc) :=
  map (λ row, map (delta t row) (seq 0 (length row))) data.

(** The replicates of a species among the participants of one role, in the
    order of the document. *)
Definition species_replicates (ps : list EnzymeMLDocJSON.participant)
    (species_id : string) : list EnzymeMLDocJSON.replicate :=
  flat_map EnzymeMLDocJSON.replicates
    (filter (λ p, EnzymeMLDocJSON.species p = species_id) ps).

(** The replicates all hold the same number of measurements. *)
Definition same_length (reps : list EnzymeMLDocJSON.replicate) : Prop :=
  ∀ r r', r ∈ reps → r' ∈ reps →
    length (EnzymeMLDocJSON.rep_data r) = length (EnzymeMLDocJSON.rep_data r').

(** Every educt and every product of every reaction of the document is one
    of its reactants. *)
Definition participants_declared (doc : EnzymeMLDocJSON.document) : Prop :=
  ∀ reac p,
    reac ∈ EnzymeMLDocJSON.reactions doc →
    p ∈ EnzymeMLDocJSON.educts reac ++ EnzymeMLDocJSON.products reac →
    EnzymeMLDocJSON.species p ∈ (EnzymeMLDocJSON.reactant doc).*1.

(** No two reactions of the document have the same id. *)
Definition distinct_reaction_ids (doc : EnzymeMLDocJSON.document) : Prop :=
  NoDup (map EnzymeMLDocJSON.reaction_id (EnzymeMLDocJSON.reactions doc)).

(** Some fit result lacks one of the five parameters of the table. *)
Definition some_missing (results : list (string * gmap string Qc)) : bool :=
  existsb (λ r : string * gmap string Qc,
             existsb (λ key, bool_decide (r.2 !! key = None)) Modeler.rows)
          results.

(** * Properties *)

Import Modeler.

(** ** The error monad *)

Lemma bind_Ok {A B} (a : A) (k : A → result B) : Ok a ≫= k = k a.
Proof. reflexivity. Qed.

Lemma index_Ok {A} (l : list A) (i : nat) (x : A) :
  l !! i = Some x → index l i = Ok x.
Proof. intros H. unfold index. by rewrite H. Qed.

(** ** Arithmetic on [Qc] *)

Lemma Qc_of_nat_pos (n : nat) : 0 < Qc_of_nat (S n).
Proof.
  unfold Qc_of_nat, Qclt. cbn [this Q2Qc].
  rewrite !Qred_correct. unfold Qlt. cbn [Qnum Qden inject_Z]. lia.
Qed.

Lemma Qc_of_nat_S (n : nat) : Qc_of_nat (S n) ≠ 0.
Proof.
  intros H. pose proof (Qc_of_nat_pos n) as Hp. rewrite H in Hp.
  by apply Qclt_not_eq in Hp.
Qed.

(** ** Initial substrate concentration and bias *)

Lemma last_map_seq {A} (g : nat → A) (n : nat) :
  last (map g (seq 0 (S n))) = Some (g n).
Proof.
  rewrite seq_S, map_app. simpl. by rewrite last_snoc.
Qed.

(** C9: on a replicate matrix with at least one row and one column,
    [get_initial_S0] is the mean of column 0 and [get_initial_bias] the mean
    of the last column, as equalities; on the scenario data they are 0 and
    2.05. *)
Theorem initial_S0_bias_column_mean :
  (∀ data : list (list Qc),
     data ≠ [] → (0 < ncols data)%nat →
     get_initial_S0 data = Ok (column_mean data 0)
     ∧ get_initial_bias data = Ok (column_mean data (ncols data - 1)))
  ∧ get_initial_S0 scenario_data = Ok (dec 0 1)
  ∧ get_initial_bias scenario_data = Ok (dec 205 100).
Proof.
  split; [|split; compute_done].
  intros data Hrows Hcols.
  destruct data as [|r0 rest]; [done|]. simpl in Hcols.
  unfold get_initial_S0, get_initial_bias, mean_axis0, column_mean.
  destruct (length r0) as [|n] eqn:Hn; [lia|].
  split.
  - by cbn.
  - cbn [mbind result_bind]. unfold index_last.
    rewrite (last_map_seq (λ j, sum (column j (r0 :: rest)) / Qc_of_nat (length (r0 :: rest)))).
    unfold ncols. rewrite Hn. do 4 f_equal. lia.
Qed.

Lemma initial_S0_bias_column_mean_witness :
  get_initial_S0 [[dec 3 1; dec 1 1]; [dec 5 1; dec 2 1]]
    = Ok (column_mean [[dec 3 1; dec 1 1]; [dec 5 1; dec 2 1]] 0)
  ∧ get_initial_bias [[dec 3 1; dec 1 1]; [dec 5 1; dec 2 1]]
    = Ok (column_mean [[dec 3 1; dec 1 1]; [dec 5 1; dec 2 1]]
            (ncols [[dec 3 1; dec 1 1]; [dec 5 1; dec 2 1]] - 1)).
Proof.
  apply (proj1 initial_S0_bias_column_mean); [done | simpl; lia].
Defined.

(** ** Conversion to concentrations *)

(** C8: [convert_to_conc] is the map [value / (24.8 * 1) * 1000], linear in
    its only argument, and it undoes [c * 24.8 * 1 / 1000]. *)
Theorem convert_to_conc_inverts :
  (∀ value, convert_to_conc value = value / (dec 248 10 * 1) * dec 1000 1)
  ∧ (∀ a x y, convert_to_conc (a * x + y)
              = a * convert_to_conc x + convert_to_conc y)
  ∧ (∀ c, convert_to_conc (c * dec 248 10 * 1 / dec 1000 1) = c).
Proof.
  assert (H1 : dec 248 10 ≠ 0) by done.
  assert (H2 : dec 1000 1 ≠ 0) by done.
  unfold convert_to_conc, epsilon, d.
  split; [done|]. split.
  - intros a x y. by field.
  - intros c. by field.
Qed.

(** ** The table of fitted parameters *)

Lemma map_is_fmap {A B} (g : A → B) (l : list A) : map g l = g <$> l.
Proof. reflexivity. Qed.

Lemma transpose_length {A} (m : list (list A)) (n : nat) :
  m ≠ [] → Forall (λ r, length r = n) m → length (transpose m) = n.
Proof.
  induction m as [|r m IH]; [done|].
  intros _ Hall. apply Forall_cons in Hall as [Hr Hm].
  destruct m as [|r' m'].
  - simpl. by rewrite length_map.
  - change (transpose (r :: r' :: m')) with (zip_with cons r (transpose (r' :: m'))).
    rewrite length_zip_with, IH by done. lia.
Qed.

(** Entry [k] of row [i] of the transposed array is entry [i] of row [k]. *)
Lemma transpose_lookup {A} (m : list (list A)) (n i k : nat) (r : list A) (x : A) :
  Forall (λ r, length r = n) m →
  m !! k = Some r → r !! i = Some x →
  transpose m !! i ≫= (.!! k) = Some x.
Proof.
  revert k. induction m as [|r0 m IH]; intros k Hall Hk Hi; [done|].
  apply Forall_cons in Hall as [Hr0 Hm].
  destruct m as [|r' m'].
  - destruct k as [|k]; [|done]. simplify_eq/=.
    rewrite map_is_fmap, list_lookup_fmap, Hi. done.
  - change (transpose (r0 :: r' :: m')) with (zip_with cons r0 (transpose (r' :: m'))).
    rewrite lookup_zip_with.
    assert (Hlen : length r = n).
    { destruct k as [|k]; simpl in Hk.
      - by injection Hk as ->.
      - rewrite Forall_forall in Hm. apply Hm. by eapply list_elem_of_lookup_2. }
    assert (Hi' : (i < n)%nat).
    { rewrite <- Hlen. by eapply lookup_lt_Some. }
    destruct (lookup_lt_is_Some_2 r0 i) as [y Hy]; [lia|].
    destruct (lookup_lt_is_Some_2 (transpose (r' :: m')) i) as [c Hc].
    { rewrite (transpose_length _ n); done. }
    rewrite Hy, Hc. simpl.
    destruct k as [|k]; simplify_eq/=; [done|].
    specialize (IH k Hm Hk Hi). rewrite Hc in IH. done.
Qed.

(** The two accumulators of the outer loop of [get_table_data]. *)
Lemma get_table_data_loop (results : list (string * gmap string Qc))
    (columns : list string) (table : list (list cell)) :
  foldl (λ '(columns, table) '(key, item),
           (columns ++ [key], table ++ [map (table_entry item) rows]))
        (columns, table) results
  = (columns ++ results.*1,
     table ++ ((λ r, map (table_entry r.2) rows) <$> results)).
Proof.
  revert columns table. induction results as [|[key item] results IH];
    intros columns table; simpl.
  - by rewrite !app_nil_r.
  - rewrite IH, <- !app_assoc. done.
Qed.

(** The rows of the table are the entries of the results for the five
    parameters. *)
Lemma existsb_map_eq {A B} (g : A → B) (h : B → bool) (l : list A) :
  existsb h (map g l) = existsb (λ x, h (g x)) l.
Proof. induction l as [|x l IH]; simpl; [done|]. by rewrite IH. Qed.

Lemma existsb_pointwise {A} (g h : A → bool) (l : list A) :
  (∀ x, g x = h x) → existsb g l = existsb h l.
Proof. intros Hgh. induction l as [|x l IH]; simpl; [done|]. by rewrite Hgh, IH. Qed.

Lemma is_dash_table_entry (item : gmap string Qc) (key : string) :
  is_dash (table_entry item key) = bool_decide (item !! key = None).
Proof. unfold table_entry. by destruct (item !! key). Qed.

(** The array of the table holds strings exactly when a result lacks one of
    the five parameters. *)
Lemma table_has_dash (results : list (string * gmap string Qc)) :
  existsb (existsb is_dash)
    ((λ r : string * gmap string Qc, map (table_entry r.2) rows) <$> results)
  = some_missing results.
Proof.
  unfold some_missing. rewrite <- map_is_fmap, existsb_map_eq.
  apply existsb_pointwise. intros r. rewrite existsb_map_eq.
  apply existsb_pointwise. intros key. apply is_dash_table_entry.
Qed.

(** The entry of result [k] for the row [key] in the array returned. *)
Lemma get_table_data_lookup (results : list (string * gmap string Qc))
    (k i : nat) (name key : string) (item : gmap string Qc) :
  results !! k = Some (name, item) → rows !! i = Some key →
  (get_table_data results).1.1 !! i ≫= (.!! k)
  = Some (to_entry (some_missing results) (table_entry item key)).
Proof.
  intros Hk Hi. unfold get_table_data. rewrite get_table_data_loop.
  cbn [fst snd app]. unfold np_array_table. rewrite table_has_dash.
  apply (transpose_lookup _ 5 i k
           (map (to_entry (some_missing results))
                (map (table_entry item) rows))).
  - rewrite map_is_fmap. apply Forall_fmap, Forall_fmap, Forall_forall.
    by intros.
  - by rewrite map_is_fmap, !list_lookup_fmap, Hk.
  - by rewrite !map_is_fmap, !list_lookup_fmap, Hi.
Qed.

(** C7 (as amended): [get_table_data] returns one column per fit result, in
    the order of the results, over the rows S0, bias, vmax, Km, a.  The
    entry of a parameter the result lacks is the marker ['-'].  The entry of
    a parameter it has is its value, converted to a concentration unless the
    parameter is vmax or a, rounded to 3 decimals: as a float when no result
    lacks any of the five parameters, and as the text of that float as soon
    as one entry of the table is the marker.  The single result
    [{S0: 1.0, vmax: 5.0}] gives the column of strings
    ['40.323', '-', '5.0', '-', '-']. *)
Theorem get_table_data_columns :
  (∀ (results : list (string * gmap string Qc)) k name item i key,
     results !! k = Some (name, item) →
     [ "S0"; "bias"; "vmax"; "Km"; "a" ] !! i = Some key →
     (get_table_data results).1.2 !! k = Some name
     ∧ (get_table_data results).1.1 !! i ≫= (.!! k)
       = Some (match item !! key with
               | None => DashText
               | Some value =>
                   let shown :=
                     if decide (key = "vmax" ∨ key = "a")
                     then round value 3
                     else round (convert_to_conc value) 3 in
                   if some_missing results then FloatText shown
                   else Float shown
               end))
  ∧ get_table_data [("fit", {[ "S0" := dec 1 1; "vmax" := dec 5 1 ]})]
    = ([ [FloatText (dec 40323 1000)]; [DashText]; [FloatText (dec 5 1)];
         [DashText]; [DashText] ],
       ["fit"], row_labels).
Proof.
  split; [|compute_done].
  intros results k name item i key Hk Hi. split.
  - unfold get_table_data. rewrite get_table_data_loop. cbn [fst snd app].
    by rewrite list_lookup_fmap, Hk.
  - rewrite (get_table_data_lookup results k i name key item Hk Hi).
    unfold table_entry. destruct (item !! key); [|done].
    simpl. by repeat case_decide.
Qed.

Lemma get_table_data_columns_witness :
  (get_table_data [("fit", {[ "S0" := dec 1 1; "vmax" := dec 5 1 ]})]).1.2 !! 0%nat
    = Some "fit"
  ∧ (get_table_data [("fit", {[ "S0" := dec 1 1; "vmax" := dec 5 1 ]})]).1.1
      !! 0%nat ≫= (.!! 0%nat)
    = Some (match ({[ "S0" := dec 1 1; "vmax" := dec 5 1 ]} : gmap string Qc) !! "S0" with
            | None => DashText
            | Some value =>
                let shown :=
                  if decide ("S0" = "vmax" ∨ "S0" = "a")
                  then round value 3
                  else round (convert_to_conc value) 3 in
                if some_missing
                     [("fit", {[ "S0" := dec 1 1; "vmax" := dec 5 1 ]})]
                then FloatText shown
                else Float shown
            end).
Proof.
  apply (proj1 get_table_data_columns
           [("fit", {[ "S0" := dec 1 1; "vmax" := dec 5 1 ]})] 0%nat "fit"
           {[ "S0" := dec 1 1; "vmax" := dec 5 1 ]} 0%nat "S0");
    reflexivity.
Defined.

(** C7 (counterexample): for the single result [{S0: 1.0, vmax: 5.0}] the
    column returned is not [40.323, '-', 5.0, '-', '-'] with its two
    numbers: the three markers make the array an array of strings. *)
Lemma get_table_data_numbers_become_text :
  (get_table_data [("fit", {[ "S0" := dec 1 1; "vmax" := dec 5 1 ]})]).1.1
  ≠ [ [Float (dec 40323 1000)]; [DashText]; [Float (dec 5 1)];
      [DashText]; [DashText] ].
Proof. compute_done. Qed.

(** ** Dispatch of the fit on the presence of a bias *)

Section Dispatch.

Context {ode fitted : Type}.
Variable odeint :
  ode → list Qc → list Qc → gmap string Qc → result (list (list Qc)).
Variable minimize :
  (gmap string Qc → result (list Qc)) → gmap string Qc → result fitted.

(** With a bias the first residual function given to the minimizer is the
    bias-aware one; without a bias the plain one is the only one. *)
Lemma fit_model_dispatch t data params f :
  (is_Some (params !! "bias") →
   head (fit_model ode odeint fitted minimize t data params f).1 = Some BiasPath)
  ∧ (params !! "bias" = None →
     (fit_model ode odeint fitted minimize t data params f).1 = [PlainPath]).
Proof.
  unfold fit_model, getitem. split.
  - intros [b ->].
    by destruct (minimize _ params) as [|[]].
  - by intros ->.
Qed.

(** A residual function without [S0] raises [KeyError] before its loop. *)
Lemma residual_with_bias_KeyError params t data f :
  params !! "S0" = None →
  _residual_with_bias ode odeint params t data f = Err KeyError.
Proof.
  intros HS0. unfold _residual_with_bias, getitem. rewrite HS0.
  by destruct (params !! "v0").
Qed.

(** A minimizer which lets the [KeyError] of the first evaluation of the
    bias-aware residual function through makes [fit_model] run the plain
    residual function as well. *)
Lemma fit_model_both_paths t data params f :
  (∀ fcn, fcn params = Err KeyError → minimize fcn params = Err KeyError) →
  is_Some (params !! "bias") → params !! "S0" = None →
  (fit_model ode odeint fitted minimize t data params f).1
  = [BiasPath; PlainPath].
Proof.
  intros Hmin [b Hb] HS0. unfold fit_model, getitem. rewrite Hb.
  rewrite Hmin; [done|]. by apply residual_with_bias_KeyError.
Qed.

End Dispatch.

(** C3 (at the failing input): with the parameters [{bias: 0.1}], which
    lack [S0], [fit_model] hands the bias-aware residual function to the
    minimizer, catches the [KeyError] it raises there, and hands the plain
    residual function to the minimizer too. *)
Theorem fit_model_runs_both_paths :
  fit_model () odeint_constant _ minimize_once
    scenario_t scenario_data {[ "bias" := dec 1 10 ]} ()
  = ([BiasPath; PlainPath], Err KeyError).
Proof. reflexivity. Qed.

(** ** The time-series lookup of the document accessor *)

Section GetData.

Import EnzymeMLDocJSON.

Lemma dict_getitem_set {V} (d : list (string * V)) (k key : string) (v : V) :
  dict_getitem (dict_set d k v) key
  = if decide (k = key) then Ok v else dict_getitem d key.
Proof.
  induction d as [|[k' w] d IH]; simpl.
  - done.
  - destruct (decide (k' = k)) as [->|Hne]; simpl.
    + by destruct (decide (k = key)).
    + destruct (decide (k' = key)) as [->|]; [|done].
      by rewrite decide_False.
Qed.

Lemma dict_getitem_Err {V} (d : list (string * V)) (key : string) (e : exn) :
  dict_getitem d key = Err e → e = KeyError.
Proof.
  induction d as [|[k w] d IH]; simpl; [congruence|].
  by case_decide.
Qed.

(** The keys of [reactionDic] are the ids of the reactions stored. *)
Lemma setReactionDic_absent (l : list reaction) (dic : list (string * reaction))
    (key : string) :
  dict_getitem dic key = Err KeyError →
  (∀ reac, reac ∈ l → reaction_id reac ≠ key) →
  dict_getitem (foldl (λ dic r, dict_set dic (reaction_id r) r) dic l) key
  = Err KeyError.
Proof.
  revert dic. induction l as [|r l IH]; intros dic Hdic Hl; simpl; [done|].
  apply IH.
  - rewrite dict_getitem_set, decide_False; [done|].
    apply Hl. by left.
  - intros reac Hin. apply Hl. by right.
Qed.

(** The values of [reactionDic] are reactions stored. *)
Lemma dict_set_values {V} (P : V → Prop) (d : list (string * V)) k v :
  Forall (λ kv, P kv.2) d → P v → Forall (λ kv, P kv.2) (dict_set d k v).
Proof.
  intros Hd Hv. induction Hd as [|[k' w] d Hw Hd IH]; simpl.
  - by repeat constructor.
  - case_decide; constructor; done.
Qed.

Lemma setReactionDic_values (P : reaction → Prop) (l : list reaction)
    (dic : list (string * reaction)) :
  Forall (λ kv, P kv.2) dic → Forall P l →
  Forall (λ kv, P kv.2) (foldl (λ dic r, dict_set dic (reaction_id r) r) dic l).
Proof.
  revert dic. induction l as [|r l IH]; intros dic Hdic Hl; simpl; [done|].
  apply Forall_cons in Hl as [Hr Hl].
  apply IH; [|done]. by apply dict_set_values.
Qed.

(** A loop keeps what each run of its body keeps. *)
Lemma for_each_keep_invariant {A S} (P : S → Prop) (xs : list A)
    (body : A → S → S * result ()) (s : S) :
  (∀ x s, x ∈ xs → P s → P (body x s).1) →
  P s → P (for_each_keep xs body s).1.
Proof.
  revert s. induction xs as [|x xs IH]; intros s Hbody Hs; simpl; [done|].
  pose proof (Hbody x s ltac:(by left) Hs) as Hs'.
  destruct (body x s) as [s' [[]|e]]; simpl in *; [|done].
  apply IH; [|done]. intros y s0 Hy. apply Hbody. by right.
Qed.

(** [__str__] records a species only when a reaction it reads lists it. *)
Lemma str_typeDic_absent protDic reactantDic reactionDic typeDic species_id :
  Forall (λ kv : string * reaction, ¬ takes_part species_id kv.2) reactionDic →
  typeDic !! species_id = None →
  (__str__ protDic reactantDic reactionDic typeDic).1 !! species_id = None.
Proof.
  intros Hall. unfold __str__.
  apply (for_each_keep_invariant (λ td : gmap string role, td !! species_id = None)).
  intros [id reac] td Hin Htd.
  rewrite Forall_forall in Hall. specialize (Hall _ Hin). simpl in Hall.
  unfold takes_part in Hall. rewrite !map_app, !elem_of_app in Hall.
  assert (Hstep : ∀ (ps : list participant) (ty : role) (td : gmap string role),
    species_id ∉ map species ps → td !! species_id = None →
    (for_each_keep ps (λ p td,
       match getitem reactantDic (species p) with
       | Ok _ => (<[species p := ty]> td, Ok ())
       | Err e => (td, Err e)
       end) td).1 !! species_id = None).
  { intros ps ty td0 Hps Htd0.
    apply (for_each_keep_invariant (λ td : gmap string role, td !! species_id = None));
      [|done].
    intros p td1 Hp Htd1. destruct (getitem reactantDic (species p)); [|done].
    simpl. rewrite lookup_insert_ne; [done|].
    intros Heq. apply Hps. rewrite <- Heq, map_is_fmap. by apply list_elem_of_fmap_2. }
  pose proof (Hstep (educts reac) Educts td ltac:(tauto) Htd) as H1.
  destruct (for_each_keep (educts reac) _ td) as [td1 [[]|e]]; [|done].
  simpl in H1.
  pose proof (Hstep (products reac) Products td1 ltac:(tauto) H1) as H2.
  destruct (for_each_keep (products reac) _ td1) as [td2 [[]|e]]; [|done].
  simpl in H2.
  apply (for_each_keep_invariant (λ td : gmap string role, td !! species_id = None));
    [|done].
  intros p td3 Hp Htd3. simpl.
  assert (Hne : species p ≠ species_id).
  { intros Heq. assert (species_id ∈ map species (modifiers reac)); [|tauto].
    rewrite <- Heq, map_is_fmap. by apply list_elem_of_fmap_2. }
  destruct (getitem reactantDic (species p)), (getitem protDic (species p));
    rewrite ?lookup_insert_ne; done.
Qed.

(** [np.array] on a list of rows raises nothing but [ValueError]. *)
Lemma np_array_2d_Err (rows : list (list Qc)) (e : exn) :
  np_array_2d rows = Err e → e = ValueError.
Proof.
  destruct rows as [|r0 rest]; simpl; [done|].
  destruct (forallb _ rest); congruence.
Qed.

(** The scan of [getData] over participants none of which is the species
    leaves [time] and [data] as they are. *)
Lemma getData_scan_no_match (ps : list participant) (species_id : string)
    (acc : list Qc * list (list Qc)) :
  species_id ∉ map species ps →
  foldl (λ '(time, data) reactant,
           if decide (species reactant = species_id) then
             foldl (λ '(time, data) rep, (rep_time rep, data ++ [rep_data rep]))
                   (time, data) (replicates reactant)
           else (time, data))
        acc ps = acc.
Proof.
  revert acc. induction ps as [|p ps IH]; intros [time data] Hps; simpl; [done|].
  simpl in Hps. apply not_elem_of_cons in Hps as [Hp Hps].
  rewrite decide_False by done. by apply IH.
Qed.

End GetData.

(** C6 (as amended): on a document loaded into fresh class dictionaries,
    [getData] never fails with [NotFoundError]; it fails with [KeyError]
    when no reaction of the document has the id asked for and when the
    species takes part in no reaction of the document; and when the reaction
    is registered and the species has a recorded role under which this
    reaction does not list it, [getData] returns an empty time vector and an
    empty data array. *)
Theorem getData_absent_pair (doc : EnzymeMLDocJSON.document)
    (self : EnzymeMLDocJSON.registries) (reaction species_id : string) :
  EnzymeMLDocJSON.__init__ EnzymeMLDocJSON.empty_registries doc = (self, Ok ()) →
  EnzymeMLDocJSON.getData self reaction species_id ≠ Err NotFoundError
  ∧ ((∀ reac, reac ∈ EnzymeMLDocJSON.reactions doc →
              EnzymeMLDocJSON.reaction_id reac ≠ reaction) →
     EnzymeMLDocJSON.getData self reaction species_id = Err KeyError)
  ∧ ((∀ reac, reac ∈ EnzymeMLDocJSON.reactions doc →
              ¬ EnzymeMLDocJSON.takes_part species_id reac) →
     EnzymeMLDocJSON.getData self reaction species_id = Err KeyError)
  ∧ (∀ reac ty,
       EnzymeMLDocJSON.dict_getitem (EnzymeMLDocJSON.reactionDic self) reaction
         = Ok reac →
       EnzymeMLDocJSON.typeDic self !! species_id = Some ty →
       species_id ∉ map EnzymeMLDocJSON.species
                        (EnzymeMLDocJSON.participants reac ty) →
       EnzymeMLDocJSON.getData self reaction species_id = Ok ([], [])).
Proof.
  intros Hinit. unfold EnzymeMLDocJSON.__init__ in Hinit. simpl in Hinit.
  destruct (EnzymeMLDocJSON.__str__ _ _ _ _) as [td r] eqn:Hstr.
  apply (f_equal fst) in Hstr. simpl in Hstr.
  injection Hinit as <- _.
  unfold EnzymeMLDocJSON.getData. simpl.
  split; [|split; [|split]].
  - destruct (EnzymeMLDocJSON.dict_getitem _ reaction) as [reac|e] eqn:Hreac.
    + simpl. unfold getitem. destruct (td !! species_id); simpl; [|done].
      destruct (foldl _ _ _) as [time data].
      destruct (np_array_2d data) as [array|e] eqn:Harray; [done|].
      by apply np_array_2d_Err in Harray as ->.
    + simpl. intros [= ->]. by apply dict_getitem_Err in Hreac.
  - intros Habs. unfold EnzymeMLDocJSON._setReactionDic.
    by rewrite setReactionDic_absent.
  - intros Habs.
    assert (Htd : td !! species_id = None).
    { rewrite <- Hstr.
      apply str_typeDic_absent; [|done].
      unfold EnzymeMLDocJSON._setReactionDic.
      apply (setReactionDic_values
               (λ reac, ¬ EnzymeMLDocJSON.takes_part species_id reac)); [done|].
      by apply Forall_forall. }
    unfold getitem. rewrite Htd.
    destruct (EnzymeMLDocJSON.dict_getitem _ reaction) as [reac|e] eqn:Hreac;
      [done|].
    by apply dict_getitem_Err in Hreac as ->.
  - intros reac ty Hreac Hty Hps.
    rewrite Hreac. simpl. unfold getitem. rewrite Hty. simpl.
    by rewrite getData_scan_no_match.
Qed.

Lemma getData_absent_pair_witness :
  let self :=
    (EnzymeMLDocJSON.__init__ EnzymeMLDocJSON.empty_registries two_reactions).1 in
  EnzymeMLDocJSON.__init__ EnzymeMLDocJSON.empty_registries two_reactions
    = (self, Ok ())
  ∧ EnzymeMLDocJSON.getData self "r3" "s1" ≠ Err NotFoundError
  ∧ EnzymeMLDocJSON.getData self "r3" "s1" = Err KeyError.
Proof.
  intros self.
  assert (Hinit : EnzymeMLDocJSON.__init__ EnzymeMLDocJSON.empty_registries
                    two_reactions = (self, Ok ())) by (vm_compute; reflexivity).
  split; [exact Hinit|].
  destruct (getData_absent_pair two_reactions self "r3" "s1" Hinit)
    as (Hkind & Hreaction & _).
  split; [exact Hkind|].
  apply Hreaction. intros reac Hin.
  unfold two_reactions in Hin. simpl in Hin.
  repeat (apply elem_of_cons in Hin as [->|Hin]; [by simpl|]).
  by apply elem_of_nil in Hin.
Defined.

(** C6 (counterexample): in the document [two_reactions] the species [s2]
    takes no part in the reaction [r1], and [getData] for that pair returns
    an empty time vector and an empty data array instead of failing. *)
Lemma getData_absent_pair_succeeds :
  let self :=
    (EnzymeMLDocJSON.__init__ EnzymeMLDocJSON.empty_registries two_reactions).1 in
  (EnzymeMLDocJSON.__init__ EnzymeMLDocJSON.empty_registries two_reactions).2
    = Ok ()
  ∧ ¬ EnzymeMLDocJSON.pair_present two_reactions "r1" "s2"
  ∧ EnzymeMLDocJSON.getData self "r1" "s2" = Ok ([], [])
  ∧ EnzymeMLDocJSON.getData self "r1" "s2" ≠ Err NotFoundError.
Proof.
  intros self. split; [compute_done|]. split; [|split; [compute_done|]].
  - intros (reac & Hin & Hid & Hpart).
    unfold two_reactions in Hin. simpl in Hin.
    unfold EnzymeMLDocJSON.takes_part in Hpart.
    apply elem_of_cons in Hin as [->|Hin].
    { simpl in Hpart. by apply list_elem_of_singleton in Hpart. }
    apply elem_of_cons in Hin as [->|Hin]; [done|].
    by apply elem_of_nil in Hin.
  - assert (H : EnzymeMLDocJSON.getData self "r1" "s2" = Ok ([], []))
      by compute_done.
    by rewrite H.
Qed.

(** ** Residuals *)

Lemma for_each_ext {A S} (xs : list A) (body1 body2 : A → S → result S) (s : S) :
  (∀ x s, x ∈ xs → body1 x s = body2 x s) →
  for_each xs body1 s = for_each xs body2 s.
Proof.
  revert s. induction xs as [|x xs IH]; intros s Hext; simpl; [done|].
  rewrite Hext by (by left). destruct (body2 x s); simpl; [|done].
  apply IH. intros y s' Hy. apply Hext. by right.
Qed.

(** A loop over the row indices which stores [h row] in row [i] of an
    array, row after row, builds the array of the [h row]. *)
Lemma for_each_rows (data init : list (list Qc)) (h : list Qc → list Qc)
    (body : nat → list (list Qc) → result (list (list Qc))) :
  length init = length data →
  (∀ i row res, data !! i = Some row → res !! i = init !! i →
                length res = length data →
                body i res = Ok (<[i:=h row]> res)) →
  for_each (seq 0 (length data)) body init = Ok (h <$> data).
Proof.
  intros Hlen Hbody.
  assert (Hgen : ∀ n k res,
    (k + n = length data)%nat → length res = length data →
    take k res = h <$> take k data → drop k res = drop k init →
    for_each (seq k n) body res = Ok (h <$> data)).
  { induction n as [|n IH]; intros k res Hk Hres Htake Hdrop; simpl.
    - rewrite take_ge in Htake by lia. rewrite take_ge in Htake by lia.
      by rewrite Htake.
    - destruct (lookup_lt_is_Some_2 data k) as [row Hrow]; [lia|].
      assert (Hk' : res !! k = init !! k).
      { rewrite <- (Nat.add_0_r k). rewrite <- !lookup_drop. by rewrite Hdrop. }
      rewrite (Hbody k row res) by done. simpl.
      apply IH.
      + lia.
      + by rewrite length_insert.
      + rewrite (take_S_r _ _ (h row)).
        * rewrite take_insert_ge by lia.
          rewrite (take_S_r data k row) by done.
          by rewrite fmap_app, Htake.
        * apply list_lookup_insert_eq. lia.
      + rewrite drop_insert_lt by lia.
        replace (S k) with (k + 1)%nat by lia.
        by rewrite <- !drop_drop, Hdrop. }
  apply Hgen; [lia|done|done|done].
Qed.

(** The column [nW] of the state matrix. *)
Lemma mapM_index_column (model : list (list Qc)) (nW : nat) :
  Forall (λ w, (nW < length w)%nat) model →
  mapM (λ w, index w nW) model = Ok (map (λ w, nth nW w 0) model).
Proof.
  induction 1 as [|w model Hw Hmodel IH]; simpl; [done|].
  destruct (lookup_lt_is_Some_2 w nW Hw) as [x Hx].
  rewrite IH. unfold index. rewrite Hx. simpl.
  by rewrite (nth_lookup_Some _ _ _ _ Hx).
Qed.

(** The rows of the loop and of the broadcast, for a curve as long as the
    rows. *)
Lemma residual_rows_loop (data : list (list Qc)) (curve : list Qc) :
  Forall (λ row, length row = length curve) data →
  for_each (seq 0 (length data))
    (λ i residual, row ← index data i; diff ← np_sub row curve;
                   set_row residual i diff)
    (map (map (Qcmult 0)) data)
  = Ok (map (λ row, zip_with Qcminus row curve) data).
Proof.
  intros Hall.
  apply (for_each_rows data _ (λ row, zip_with Qcminus row curve)).
  - by rewrite length_map.
  - intros i row res Hrow Hres Hlen.
    rewrite Forall_forall in Hall.
    assert (Hr : length row = length curve).
    { apply Hall. by eapply list_elem_of_lookup_2. }
    unfold index. rewrite Hrow. simpl.
    unfold np_sub. rewrite decide_True by done. simpl.
    unfold set_row, index. rewrite Hres, map_is_fmap, list_lookup_fmap, Hrow.
    simpl. rewrite decide_True; [done|].
    rewrite length_zip_with, length_map. lia.
Qed.

Lemma residual_rows_broadcast (data : list (list Qc)) (curve : list Qc) :
  Forall (λ row, length row = length curve) data →
  mapM (λ row, np_sub row curve) data
  = Ok (map (λ row, zip_with Qcminus row curve) data).
Proof.
  induction 1 as [|row data Hrow Hdata IH]; simpl; [done|].
  rewrite IH. unfold np_sub. by rewrite decide_True.
Qed.

Lemma mapM_Ok_length {A B} (g : A → result B) (l : list A) (l' : list B) :
  mapM g l = Ok l' → length l' = length l.
Proof.
  revert l'. induction l as [|x l IH]; intros l'; simpl.
  - by intros [= <-].
  - destruct (g x) as [y|]; simpl; [|done].
    destruct (mapM g l) as [k|]; simpl; [|done].
    intros [= <-]. simpl. by rewrite (IH k).
Qed.

(** A computation which every run of the body starts with may be done once
    before a loop which runs at least once. *)
Lemma for_each_hoist {A S T} (pre : result T) (body : T → A → S → result S)
    (xs : list A) (init : S) :
  xs ≠ [] →
  for_each xs (λ x s, pre ≫= λ c, body c x s) init
  = pre ≫= λ c, for_each xs (body c) init.
Proof.
  intros Hxs. destruct pre as [c|e]; simpl.
  - by apply for_each_ext.
  - by destruct xs.
Qed.

Section Residuals.

Context {ode : Type}.
Variable odeint :
  ode → list Qc → list Qc → gmap string Qc → result (list (list Qc)).
Hypothesis odeint_ok : odeint_shape odeint.

Lemma model_curve_length with_bias params t w0 nW f curve :
  model_curve odeint with_bias params t w0 nW f = Ok curve →
  length curve = length t.
Proof.
  unfold model_curve, solveODE.
  destruct (odeint f w0 t params) as [model|] eqn:Hode; simpl; [|done].
  apply odeint_ok in Hode as [Hlen _].
  destruct (mapM (λ w, index w nW) model) as [s_model|] eqn:Hs; simpl; [|done].
  apply mapM_Ok_length in Hs.
  destruct with_bias; simpl.
  - destruct (getitem params "bias"); simpl; [|done].
    intros [= <-]. rewrite length_map. congruence.
  - intros [= <-]. congruence.
Qed.

(** Loop and broadcast agree once the curve is fixed. *)
Lemma residual_rows_agree (t : list Qc) (data : list (list Qc))
    (pre : result (list Qc)) :
  aligned t data → data ≠ [] →
  (∀ curve, pre = Ok curve → length curve = length t) →
  for_each (seq 0 (length data))
    (λ i residual, pre ≫= λ curve,
       row ← index data i; diff ← np_sub row curve; set_row residual i diff)
    (map (map (Qcmult 0)) data)
  = pre ≫= λ curve, mapM (λ row, np_sub row curve) data.
Proof.
  intros Halign Hdata Hpre.
  rewrite (for_each_hoist pre
             (λ curve i residual,
                row ← index data i; diff ← np_sub row curve;
                set_row residual i diff)).
  - destruct pre as [curve|e]; simpl; [|done].
    assert (Hall : Forall (λ row, length row = length curve) data).
    { rewrite (Hpre curve) by done. exact Halign. }
    by rewrite residual_rows_loop, residual_rows_broadcast.
  - by destruct data.
Qed.

Lemma residual_loop_broadcast params t data f :
  aligned t data → data ≠ [] →
  _residual ode odeint params t data f
    = residual_broadcast odeint false params t data f
  ∧ _residual_with_bias ode odeint params t data f
    = residual_broadcast odeint true params t data f.
Proof.
  intros Halign Hdata.
  unfold _residual, _residual_with_bias, residual_broadcast.
  destruct (try_except_KeyError _ _) as [[w0 nW]|e]; simpl; [|done].
  split.
  - rewrite (for_each_ext _ _
      (λ i residual, model_curve odeint false params t w0 nW f ≫= λ curve,
         row ← index data i; diff ← np_sub row curve; set_row residual i diff)).
    + rewrite (residual_rows_agree t);
        [|done|done|by apply model_curve_length].
      by destruct (model_curve _ _ _ _ _ _ _).
    + intros i res _. unfold model_curve.
      destruct (solveODE ode odeint f t w0 params) as [model|]; simpl; [|done].
      by destruct (mapM (λ w, index w nW) model).
  - rewrite (for_each_ext _ _
      (λ i residual, model_curve odeint true params t w0 nW f ≫= λ curve,
         row ← index data i; diff ← np_sub row curve; set_row residual i diff)).
    + rewrite (residual_rows_agree t);
        [|done|done|by apply model_curve_length].
      by destruct (model_curve _ _ _ _ _ _ _).
    + intros i res _. unfold model_curve.
      destruct (solveODE ode odeint f t w0 params) as [model|]; simpl; [|done].
      destruct (mapM (λ w, index w nW) model); simpl; [|done].
      by destruct (getitem params "bias").
Qed.

End Residuals.

(** The initial state and the substrate index the two residual functions
    derive from the parameters. *)
Lemma initial_state_lookup (params : gmap string Qc) (s0 : Qc) :
  params !! "S0" = Some s0 →
  try_except_KeyError
    (v0 ← getitem params "v0"; s0 ← getitem params "S0"; Ok ([v0; s0], 1%nat))
    (s0 ← getitem params "S0"; Ok ([s0], 0%nat))
  = Ok (initial_state params s0, S_index params).
Proof.
  intros HS0. unfold getitem, initial_state, S_index. rewrite HS0.
  by destruct (params !! "v0").
Qed.

Lemma zip_with_minus_map {A} (g : A → Qc) (row : list Qc) (l : list A) :
  zip_with Qcminus row (map g l) = zip_with (λ x w, x - g w) row l.
Proof. rewrite map_is_fmap. apply zip_with_fmap_r. Qed.

(** C2: for parameters with an entry [S0], data aligned with [t] and the
    solution [model] of the ODE from the initial state [(v0, S0)] when the
    parameters have an entry [v0] and [S0] alone otherwise, [_residual]
    returns the rows [data[i][j] - model[j][S-index]] one after the other,
    and with an entry [bias] [_residual_with_bias] returns the rows
    [data[i][j] - (model[j][S-index] + bias)], where the S-index is 1 with
    an entry [v0] and 0 without. *)
Theorem residual_entries {ode : Type}
    (odeint : ode → list Qc → list Qc → gmap string Qc → result (list (list Qc)))
    (params : gmap string Qc) (t : list Qc) (data : list (list Qc)) (f : ode)
    (s0 : Qc) (model : list (list Qc)) :
  odeint_shape odeint →
  params !! "S0" = Some s0 →
  aligned t data →
  odeint f (initial_state params s0) t params = Ok model →
  _residual ode odeint params t data f
    = Ok (concat (map (λ row,
            zip_with (λ x w, x - nth (S_index params) w 0) row model) data))
  ∧ ∀ bias, params !! "bias" = Some bias →
      _residual_with_bias ode odeint params t data f
      = Ok (concat (map (λ row,
              zip_with (λ x w, x - (nth (S_index params) w 0 + bias)) row model)
              data)).
Proof.
  intros Hshape HS0 Halign Hode.
  pose proof (initial_state_lookup params s0 HS0) as Htry.
  assert (Hcol : mapM (λ w, index w (S_index params)) model
                 = Ok (map (λ w, nth (S_index params) w 0) model)).
  { apply mapM_index_column.
    destruct (Hshape _ _ _ _ _ Hode) as [_ Hw].
    eapply Forall_impl; [exact Hw|]. intros w Hlen. simpl in Hlen.
    rewrite Hlen. unfold initial_state, S_index.
    destruct (params !! "v0"); simpl; lia. }
  assert (Hlen : length (map (λ w, nth (S_index params) w 0) model) = length t).
  { rewrite length_map. by destruct (Hshape _ _ _ _ _ Hode). }
  destruct (decide (data = [])) as [->|Hdata].
  - unfold _residual, _residual_with_bias. rewrite Htry. by split.
  - destruct (residual_loop_broadcast odeint Hshape params t data f Halign Hdata)
      as [-> ->].
    unfold residual_broadcast. rewrite Htry. simpl.
    unfold model_curve, solveODE. rewrite Hode. simpl. rewrite Hcol. simpl.
    split.
    + rewrite residual_rows_broadcast by (by rewrite Hlen).
      simpl. do 2 f_equal. apply map_ext. intros row.
      apply zip_with_minus_map.
    + intros bias Hbias. unfold getitem. rewrite Hbias. simpl.
      rewrite residual_rows_broadcast by (by rewrite length_map, Hlen).
      simpl. do 2 f_equal. apply map_ext. intros row.
      by rewrite map_map, zip_with_minus_map.
Qed.

Lemma odeint_constant_shape : odeint_shape odeint_constant.
Proof.
  intros f w0 t params model [= <-]. rewrite length_map. split; [done|].
  rewrite map_is_fmap. apply Forall_fmap, Forall_forall. by intros.
Qed.

Lemma residual_entries_witness :
  _residual () odeint_constant {[ "S0" := dec 2 1 ]} scenario_t scenario_data ()
  = Ok [dec (-2) 1; dec (-1) 1; dec 0 1; dec 0 1;
        dec (-2) 1; dec (-8) 10; dec (-2) 10; dec 1 10].
Proof.
  destruct (residual_entries odeint_constant {[ "S0" := dec 2 1 ]}
              scenario_t scenario_data () (dec 2 1)
              [[dec 2 1]; [dec 2 1]; [dec 2 1]; [dec 2 1]]) as [H _].
  - exact odeint_constant_shape.
  - reflexivity.
  - unfold aligned, scenario_data, scenario_t. repeat constructor.
  - reflexivity.
  - rewrite H. compute_done.
Defined.

(** C5: on data aligned with [t], whenever computing the model curve once
    and subtracting it from [data] by broadcasting returns a residual
    vector, the residual function which solves the ODE once per replicate
    row returns that same vector, the same values in the same order, with
    and without bias; on data with at least one row the two computations
    also raise the same exceptions. *)
Theorem residual_loop_equals_broadcast {ode : Type}
    (odeint : ode → list Qc → list Qc → gmap string Qc → result (list (list Qc)))
    (params : gmap string Qc) (t : list Qc) (data : list (list Qc)) (f : ode) :
  odeint_shape odeint →
  aligned t data →
  (∀ residual, residual_broadcast odeint false params t data f = Ok residual →
               _residual ode odeint params t data f = Ok residual)
  ∧ (∀ residual, residual_broadcast odeint true params t data f = Ok residual →
                 _residual_with_bias ode odeint params t data f = Ok residual)
  ∧ (data ≠ [] →
     _residual ode odeint params t data f
       = residual_broadcast odeint false params t data f
     ∧ _residual_with_bias ode odeint params t data f
       = residual_broadcast odeint true params t data f).
Proof.
  intros Hshape Halign.
  assert (Hempty : ∀ with_bias residual,
    data = [] →
    residual_broadcast odeint with_bias params t data f = Ok residual →
    _residual ode odeint params t data f = Ok residual
    ∧ _residual_with_bias ode odeint params t data f = Ok residual).
  { intros with_bias residual -> Hb.
    unfold residual_broadcast in Hb. unfold _residual, _residual_with_bias.
    destruct (try_except_KeyError _ _) as [[w0 nW]|e]; [|done].
    rewrite bind_Ok in Hb.
    destruct (model_curve odeint with_bias params t w0 nW f); [|done].
    simpl in Hb. by injection Hb as <-. }
  split; [|split].
  - intros residual Hb. destruct (decide (data = [])) as [Hd|Hd].
    + by apply (Hempty false).
    + by destruct (residual_loop_broadcast odeint Hshape params t data f
                     Halign Hd) as [-> _].
  - intros residual Hb. destruct (decide (data = [])) as [Hd|Hd].
    + by apply (Hempty true).
    + by destruct (residual_loop_broadcast odeint Hshape params t data f
                     Halign Hd) as [_ ->].
  - intros Hdata. by apply residual_loop_broadcast.
Qed.

Lemma residual_loop_equals_broadcast_witness :
  _residual () odeint_constant {[ "S0" := dec 2 1; "bias" := dec 1 10 ]}
    scenario_t scenario_data ()
  = residual_broadcast odeint_constant false
      {[ "S0" := dec 2 1; "bias" := dec 1 10 ]} scenario_t scenario_data ()
  ∧ _residual_with_bias () odeint_constant
      {[ "S0" := dec 2 1; "bias" := dec 1 10 ]} scenario_t scenario_data ()
  = residual_broadcast odeint_constant true
      {[ "S0" := dec 2 1; "bias" := dec 1 10 ]} scenario_t scenario_data ().
Proof.
  apply (residual_loop_equals_broadcast odeint_constant).
  - exact odeint_constant_shape.
  - unfold aligned, scenario_data, scenario_t. repeat constructor.
  - done.
Defined.

(** With no replicate row the loop never runs: the residual function does
    not look the bias up, and the computation which builds the model curve
    first raises the [KeyError] of a lacking bias. *)
Remark residual_without_rows :
  _residual_with_bias () odeint_constant {[ "S0" := dec 2 1 ]} scenario_t [] ()
    = Ok []
  ∧ residual_broadcast odeint_constant true {[ "S0" := dec 2 1 ]} scenario_t [] ()
    = Err KeyError.
Proof. split; reflexivity. Qed.

(** ** The gradient curve *)

Lemma sorted_adjacent (t : list Qc) (j : nat) :
  Sorted Qclt t → (S j < length t)%nat → nth j t 0 < nth (S j) t 0.
Proof.
  intros Hsorted. revert j.
  induction Hsorted as [|a l Hl IH Hhd]; intros j Hj; simpl in Hj; [lia|].
  destruct j as [|j].
  - destruct Hhd as [|b l Hab]; simpl in *; [lia|done].
  - apply (IH j). lia.
Qed.

(** After the first index the times of a time vector are positive. *)
Lemma time_vector_pos (t : list Qc) (j : nat) :
  time_vector t → (S j < length t)%nat → 0 < nth (S j) t 0.
Proof.
  intros [Hnonneg Hsorted] Hj.
  apply Qcle_lt_trans with (nth j t 0).
  - rewrite Forall_forall in Hnonneg. apply Hnonneg.
    apply list_elem_of_In, nth_In. lia.
  - by apply sorted_adjacent.
Qed.

(** The divisor of the rate is never zero. *)
Lemma time_step_nonzero (t : list Qc) (j : nat) :
  time_vector t → (j < length t)%nat → nth j t 0 ≠ 0 →
  nth j t 0 - prev_time t j ≠ 0.
Proof.
  intros Ht Hj Hnz. destruct j as [|j]; simpl.
  - intros H. apply Hnz. transitivity (nth 0 t 0 - 0); [ring|exact H].
  - destruct Ht as [_ Hsorted].
    pose proof (sorted_adjacent t j Hsorted Hj) as Hlt.
    intros H. apply (Qclt_not_eq _ _ Hlt).
    transitivity (nth j t 0 + (nth (S j) t 0 - nth j t 0)); [|ring].
    rewrite H. ring.
Qed.

(** The inner loop from index [k] on, entered with the value and the time
    before [k]. *)
Lemma gradient_row_deltas (t row : list Qc) (n k : nat) :
  time_vector t → length row = length t → (k + n = length row)%nat →
  gradient_row t row (seq k n) (prev_value row k) (prev_time t k)
  = Ok (map (delta t row) (seq k n)).
Proof.
  intros Ht Hlen. revert k.
  induction n as [|n IH]; intros k Hk; simpl; [done|].
  destruct (lookup_lt_is_Some_2 t k) as [tk Htk]; [lia|].
  destruct (lookup_lt_is_Some_2 row k) as [x Hx]; [lia|].
  pose proof (nth_lookup_Some _ _ 0 _ Htk) as Htk'.
  pose proof (nth_lookup_Some _ _ 0 _ Hx) as Hx'.
  unfold index. rewrite Htk, Hx. simpl.
  assert (Hnext : gradient_row t row (seq (S k) n) x tk
                  = Ok (map (delta t row) (seq (S k) n))).
  { specialize (IH (S k) ltac:(lia)). simpl in IH. by rewrite Htk', Hx' in IH. }
  unfold delta at 1. rewrite Htk', Hx'.
  destruct (decide (tk = 0)) as [Hz|Hnz]; simpl.
  - by rewrite Hnext.
  - unfold fdiv. rewrite decide_False.
    + simpl. by rewrite Hnext.
    + rewrite <- Htk'. apply time_step_nonzero; [done|lia|by rewrite Htk'].
Qed.

Lemma mapM_cons {A B} (g : A → result B) (x : A) (l : list A) :
  mapM g (x :: l) = y ← g x; k ← mapM g l; Ok (y :: k).
Proof. reflexivity. Qed.

(** The array [v_all] which [_get_v] fills. *)
Lemma get_v_all (t : list Qc) (data : list (list Qc)) :
  time_vector t → t ≠ [] → aligned t data →
  mapM (λ row,
    prev_value ← index row 0;
    let prev_time := 0 in
    gradient_row t row (seq 0 (length row)) prev_value prev_time) data
  = Ok (deltas t data).
Proof.
  intros Ht Hne Halign.
  induction Halign as [|row data Hrow Hdata IH]; [done|].
  rewrite mapM_cons, IH.
  destruct row as [|x row]; [by destruct t|].
  pose proof (gradient_row_deltas t (x :: row) (length (x :: row)) 0
                Ht Hrow eq_refl) as Hgr.
  cbn [prev_value prev_time nth] in Hgr.
  unfold index. cbn [lookup list_lookup mbind result_bind].
  by rewrite Hgr.
Qed.

Lemma get_v_column_means (t : list Qc) (data : list (list Qc)) :
  time_vector t → t ≠ [] → aligned t data →
  _get_v t data = mean_axis0 (deltas t data).
Proof.
  intros Ht Hne Halign. unfold _get_v. by rewrite get_v_all.
Qed.

Lemma column_deltas (t : list Qc) (data : list (list Qc)) (j : nat) :
  aligned t data → (j < length t)%nat →
  column j (deltas t data) = map (λ row, delta t row j) data.
Proof.
  intros Halign Hj. unfold column, deltas. rewrite map_map.
  apply map_ext_in. intros row Hrow%list_elem_of_In.
  unfold aligned in Halign. rewrite Forall_forall in Halign.
  apply nth_lookup_Some.
  rewrite map_is_fmap, list_lookup_fmap, lookup_seq_lt; [done|].
  rewrite (Halign row Hrow). lia.
Qed.

Lemma mean_axis0_cons (r0 : list Qc) (m : list (list Qc)) :
  mean_axis0 (r0 :: m)
  = Ok (map (λ j, sum (column j (r0 :: m)) / Qc_of_nat (length (r0 :: m)))
            (seq 0 (length r0))).
Proof. reflexivity. Qed.

Lemma deltas_cons (t row : list Qc) (data : list (list Qc)) :
  deltas t (row :: data) = map (delta t row) (seq 0 (length row)) :: deltas t data.
Proof. reflexivity. Qed.

(** The means of the columns of the deltas, column by column. *)
Lemma mean_axis0_deltas (t : list Qc) (data : list (list Qc)) :
  aligned t data → data ≠ [] →
  mean_axis0 (deltas t data)
  = Ok (map (λ j, sum (map (λ row, delta t row j) data)
                  / Qc_of_nat (length data)) (seq 0 (length t))).
Proof.
  intros Halign Hdata.
  destruct data as [|row0 data']; [done|].
  assert (Hrow0 : length row0 = length t).
  { by apply Forall_cons in Halign as [? _]. }
  rewrite deltas_cons, mean_axis0_cons, <- deltas_cons.
  rewrite length_map, length_seq, Hrow0.
  f_equal. apply map_ext_in. intros j Hj%in_seq.
  rewrite column_deltas by (done || lia).
  unfold deltas. by rewrite length_map.
Qed.

(** C1: for a non-negative, strictly increasing time vector and a replicate
    matrix aligned with it, [_get_v] returns the column-wise mean over the
    replicate rows of the deltas, where the delta of row [i] at [j] is the
    difference [prev_value - data[i][j]] when [t[j]] is zero and the
    absolute rate [|(prev_value - data[i][j]) / (t[j] - prev_time)|]
    otherwise, [prev_value] and [prev_time] starting as [data[i][0]] and 0;
    and the divisor of every rate computed is different from zero. *)
Theorem get_v_is_mean_of_deltas (t : list Qc) (data : list (list Qc)) :
  time_vector t → t ≠ [] → aligned t data →
  _get_v t data = mean_axis0 (deltas t data)
  ∧ (data ≠ [] → _get_v t data
       = Ok (map (λ j, sum (map (λ row, delta t row j) data)
                        / Qc_of_nat (length data)) (seq 0 (length t))))
  ∧ ∀ j, (j < length t)%nat → nth j t 0 ≠ 0 → nth j t 0 - prev_time t j ≠ 0.
Proof.
  intros Ht Hne Halign. split; [by apply get_v_column_means|]. split.
  - intros Hdata. rewrite get_v_column_means by done.
    by apply mean_axis0_deltas.
  - intros j Hj Hnz. by apply time_step_nonzero.
Qed.

Lemma scenario_time_vector : time_vector scenario_t.
Proof. split; unfold scenario_t; repeat constructor; done. Qed.

Lemma scenario_aligned : aligned scenario_t scenario_data.
Proof. unfold aligned, scenario_data, scenario_t. repeat constructor. Qed.

Lemma get_v_is_mean_of_deltas_witness :
  _get_v scenario_t scenario_data
  = Ok [dec 0 1; dec 11 10; dec 8 10; dec 15 100].
Proof.
  destruct (get_v_is_mean_of_deltas scenario_t scenario_data) as [H _].
  - exact scenario_time_vector.
  - done.
  - exact scenario_aligned.
  - rewrite H. compute_done.
Defined.

(** ** Sign of the gradient curve and of the initial vmax *)

Lemma Qcabs_0 : Qcabs 0 = 0.
Proof. by apply Qcabs_pos. Qed.

Lemma delta_first (t row : list Qc) : delta t row 0 = 0.
Proof.
  unfold delta, prev_value, prev_time. case_decide.
  - ring.
  - replace ((nth 0 row 0 - nth 0 row 0) / (nth 0 t 0 - 0)) with (Q2Qc 0).
    + apply Qcabs_0.
    + unfold Qcdiv. ring.
Qed.

Lemma delta_nonneg (t row : list Qc) (j : nat) :
  time_vector t → (j < length t)%nat → 0 ≤ delta t row j.
Proof.
  intros Ht Hj. destruct j as [|j].
  - rewrite delta_first. apply Qcle_refl.
  - unfold delta. rewrite decide_False.
    + apply Qcabs_nonneg.
    + intros Hz. pose proof (time_vector_pos t j Ht Hj) as Hpos.
      rewrite Hz in Hpos. by apply Qclt_not_eq in Hpos.
Qed.

Lemma sum_nonneg (l : list Qc) : Forall (Qcle 0) l → 0 ≤ sum l.
Proof.
  induction 1 as [|x l Hx Hl IH]; simpl.
  - apply Qcle_refl.
  - by apply Qcplus_nonneg_nonneg.
Qed.

Lemma sum_zero (l : list Qc) : Forall (λ x, x = 0) l → sum l = 0.
Proof.
  induction 1 as [|x l Hx Hl IH]; simpl; [done|].
  rewrite Hx, IH. ring.
Qed.

Lemma mean_nonneg (x : Qc) (n : nat) : 0 ≤ x → 0 ≤ x / Qc_of_nat (S n).
Proof.
  intros Hx. unfold Qcdiv. apply Qcmult_nonneg_nonneg; [done|].
  apply Qclt_le_weak, Qcinv_pos, Qc_of_nat_pos.
Qed.

Lemma Qcmax_ge_l (a x : Qc) : a ≤ Qcmax a x.
Proof.
  unfold Qcmax. case_decide; [by apply Qclt_le_weak|apply Qcle_refl].
Qed.

Lemma Qcmax_ge_r (a x : Qc) : x ≤ Qcmax a x.
Proof.
  unfold Qcmax. case_decide; [apply Qcle_refl|by apply Qcnot_lt_le].
Qed.

Lemma foldl_Qcmax_spec (l : list Qc) (a : Qc) :
  a ≤ foldl Qcmax a l
  ∧ Forall (λ x, x ≤ foldl Qcmax a l) l
  ∧ foldl Qcmax a l ∈ a :: l.
Proof.
  revert a. induction l as [|x l IH]; intros a; simpl.
  - split; [apply Qcle_refl|]. split; [done|by left].
  - destruct (IH (Qcmax a x)) as (Hge & Hall & Hin).
    split; [|split].
    + eapply Qcle_trans; [apply Qcmax_ge_l|exact Hge].
    + constructor; [|done].
      eapply Qcle_trans; [apply Qcmax_ge_r|exact Hge].
    + apply elem_of_cons in Hin as [Heq|Hin].
      * rewrite Heq. unfold Qcmax. case_decide.
        -- right. by left.
        -- by left.
      * right. by right.
Qed.

(** [np.max] returns an element of the array which bounds the others. *)
Lemma np_max_spec (v : list Qc) (m : Qc) :
  np_max v = Ok m → m ∈ v ∧ Forall (λ x, x ≤ m) v.
Proof.
  destruct v as [|a v]; simpl; [done|]. intros [= <-].
  destruct (foldl_Qcmax_spec v a) as (Hge & Hall & Hin).
  split; [done|]. by constructor.
Qed.

(** The gradient curve of aligned data with at least one row. *)
Lemma get_v_Ok (t : list Qc) (data : list (list Qc)) :
  time_vector t → t ≠ [] → aligned t data → data ≠ [] →
  _get_v t data
  = Ok (map (λ j, sum (map (λ row, delta t row j) data)
                  / Qc_of_nat (length data)) (seq 0 (length t))).
Proof.
  intros Ht Hne Halign Hdata.
  rewrite get_v_column_means by done. by apply mean_axis0_deltas.
Qed.

(** C10: for a non-negative, strictly increasing time vector and an aligned
    replicate matrix with at least one row, the first entry of the gradient
    curve of [_get_v] is 0, every entry is non-negative, and
    [get_initial_vmax] returns a value which is at least 0. *)
Theorem gradient_curve_nonnegative (t : list Qc) (data : list (list Qc)) :
  time_vector t → t ≠ [] → aligned t data → data ≠ [] →
  ∃ v vmax,
    _get_v t data = Ok v
    ∧ v !! 0%nat = Some 0
    ∧ Forall (Qcle 0) v
    ∧ get_initial_vmax t data = Ok vmax
    ∧ 0 ≤ vmax.
Proof.
  intros Ht Hne Halign Hdata.
  pose proof (get_v_Ok t data Ht Hne Halign Hdata) as Hv.
  set (v := map (λ j, sum (map (λ row, delta t row j) data)
                      / Qc_of_nat (length data)) (seq 0 (length t))) in *.
  assert (Hn : ∃ n, length data = S n).
  { destruct data; [done|]. by eexists. }
  destruct Hn as [n Hn].
  assert (H0 : v !! 0%nat = Some 0).
  { unfold v. destruct t as [|t0 t']; [done|]. simpl. f_equal.
    rewrite sum_zero.
    - unfold Qcdiv. ring.
    - rewrite map_is_fmap. apply Forall_fmap, Forall_forall.
      intros row _. apply delta_first. }
  assert (Hall : Forall (Qcle 0) v).
  { unfold v. rewrite map_is_fmap. apply Forall_fmap, Forall_forall.
    intros j Hj%elem_of_seq. simpl. rewrite Hn. apply mean_nonneg, sum_nonneg.
    rewrite map_is_fmap. apply Forall_fmap, Forall_forall.
    intros row _. apply delta_nonneg; [done|lia]. }
  destruct (np_max v) as [vmax|e] eqn:Hmax.
  - exists v, vmax. split; [done|]. split; [done|]. split; [done|].
    split.
    + unfold get_initial_vmax. rewrite Hv. done.
    + apply np_max_spec in Hmax as [_ Hle].
      rewrite Forall_forall in Hle. apply Hle.
      by eapply list_elem_of_lookup_2.
  - destruct v; [done|]. done.
Qed.

Lemma gradient_curve_nonnegative_witness :
  ∃ v vmax,
    _get_v scenario_t scenario_data = Ok v
    ∧ v !! 0%nat = Some 0
    ∧ Forall (Qcle 0) v
    ∧ get_initial_vmax scenario_t scenario_data = Ok vmax
    ∧ 0 ≤ vmax.
Proof.
  apply gradient_curve_nonnegative.
  - exact scenario_time_vector.
  - done.
  - exact scenario_aligned.
  - done.
Defined.

(** ** The initial Km *)




(** The means of the columns of an aligned array with at least one row. *)
Lemma mean_axis0_aligned (t : list Qc) (data : list (list Qc)) :
  aligned t data → data ≠ [] →
  mean_axis0 data = Ok (map (column_mean data) (seq 0 (length t))).
Proof.
  intros Halign Hdata. destruct data as [|row0 data']; [done|].
  rewrite mean_axis0_cons.
  apply Forall_cons in Halign as [Hrow0 _]. by rewrite Hrow0.
Qed.

Lemma initial_bias_aligned (t : list Qc) (data : list (list Qc)) :
  aligned t data → data ≠ [] → t ≠ [] →
  get_initial_bias data = Ok (column_mean data (length t - 1)).
Proof.
  intros Halign Hdata Hne. unfold get_initial_bias.
  rewrite (mean_axis0_aligned t) by done. simpl.
  destruct (length t) as [|n] eqn:Hn; [by destruct t|].
  unfold index_last. rewrite last_map_seq. do 2 f_equal. lia.
Qed.





(** * Further properties of the modeler *)

(** ** Initial guesses on degenerate and simple inputs *)

Lemma Qc_of_nat_1 : Qc_of_nat 1 = 1.
Proof. compute_done. Qed.

Lemma map_nth_seq (row : list Qc) :
  map (λ j, nth j row 0) (seq 0 (length row)) = row.
Proof.
  apply list_eq. intros i. rewrite map_is_fmap, list_lookup_fmap.
  destruct (decide (i < length row)%nat) as [Hi|Hi].
  - rewrite lookup_seq_lt by done. simpl.
    destruct (lookup_lt_is_Some_2 row i Hi) as [x Hx].
    by rewrite Hx, (nth_lookup_Some _ _ _ _ Hx).
  - rewrite lookup_seq_ge by lia. simpl. symmetry.
    apply lookup_ge_None. lia.
Qed.

(** The means of the columns of a single row are the row. *)
Lemma mean_axis0_single (row : list Qc) : mean_axis0 [row] = Ok row.
Proof.
  rewrite mean_axis0_cons. f_equal.
  rewrite <- (map_nth_seq row) at 2.
  apply map_ext. intros j. simpl. rewrite Qc_of_nat_1.
  by field.
Qed.

(** With a single replicate the initial S0 is the first measurement and the
    initial bias the last one; both raise [IndexError] on a row without
    measurement. *)
Theorem initial_guess_single_replicate (row : list Qc) :
  get_initial_S0 [row] = index row 0
  ∧ get_initial_bias [row] = index_last row.
Proof.
  unfold get_initial_S0, get_initial_bias.
  by rewrite mean_axis0_single, bind_Ok.
Qed.

(** On an array with rows but no column every initial guess raises
    [IndexError]. *)
Theorem initial_guess_no_column (t : list Qc) (data : list (list Qc)) :
  data ≠ [] → ncols data = 0%nat →
  get_initial_S0 data = Err IndexError
  ∧ get_initial_bias data = Err IndexError
  ∧ _get_v t data = Err IndexError
  ∧ get_initial_vmax t data = Err IndexError
  ∧ get_initial_Km t data = Err IndexError.
Proof.
  intros Hdata Hcols. destruct data as [|row0 data']; [done|].
  simpl in Hcols. apply nil_length_inv in Hcols as ->.
  assert (Hv : _get_v t ([] :: data') = Err IndexError).
  { unfold _get_v. by rewrite mapM_cons. }
  unfold get_initial_S0, get_initial_bias, get_initial_vmax, get_initial_Km.
  rewrite Hv, mean_axis0_cons. by repeat split.
Qed.

Lemma initial_guess_no_column_witness :
  get_initial_S0 [[]; []] = Err IndexError
  ∧ get_initial_bias [[]; []] = Err IndexError
  ∧ _get_v [] [[]; []] = Err IndexError
  ∧ get_initial_vmax [] [[]; []] = Err IndexError
  ∧ get_initial_Km [] [[]; []] = Err IndexError.
Proof. apply initial_guess_no_column; [done|reflexivity]. Defined.

(** ** The gradient curve on constant data and on repeated times *)

Lemma delta_constant (t : list Qc) (c : Qc) (n j : nat) :
  (j < n)%nat → delta t (replicate n c) j = 0.
Proof.
  intros Hj.
  assert (Hnth : ∀ i, (i < n)%nat → nth i (replicate n c) 0 = c).
  { intros i Hi. apply nth_lookup_Some. by apply lookup_replicate_2. }
  assert (Hprev : prev_value (replicate n c) j = c).
  { destruct j as [|j]; simpl; apply Hnth; lia. }
  unfold delta. rewrite Hprev, Hnth by done. case_decide.
  - ring.
  - replace ((c - c) / (nth j t 0 - prev_time t j)) with (Q2Qc 0).
    + apply Qcabs_0.
    + unfold Qcdiv. ring.
Qed.

Lemma np_max_replicate (x : Qc) (n : nat) : np_max (replicate (S n) x) = Ok x.
Proof.
  simpl. f_equal. induction n as [|n IH]; simpl; [done|].
  unfold Qcmax at 2. rewrite decide_False; [done|].
  intros H. by apply Qclt_not_eq in H.
Qed.

(** When every replicate is constant over time the gradient curve is zero
    at every time point and the initial vmax is 0. *)
Theorem gradient_of_constant_data (t : list Qc) (data : list (list Qc)) :
  time_vector t → t ≠ [] → data ≠ [] →
  Forall (λ row, ∃ c, row = replicate (length t) c) data →
  _get_v t data = Ok (replicate (length t) 0)
  ∧ get_initial_vmax t data = Ok 0.
Proof.
  intros Ht Hne Hdata Hconst.
  assert (Halign : aligned t data).
  { eapply Forall_impl; [exact Hconst|]. intros row [c ->].
    by rewrite length_replicate. }
  assert (Hv : _get_v t data = Ok (replicate (length t) 0)).
  { rewrite get_v_Ok by done. f_equal.
    apply list_eq. intros j. rewrite map_is_fmap, list_lookup_fmap.
    destruct (decide (j < length t)%nat) as [Hj|Hj].
    - rewrite lookup_seq_lt, lookup_replicate_2 by done. simpl. f_equal.
      rewrite sum_zero.
      + unfold Qcdiv. ring.
      + rewrite map_is_fmap. apply Forall_fmap.
        eapply Forall_impl; [exact Hconst|]. intros row [c ->]. simpl.
        by apply delta_constant.
    - rewrite lookup_seq_ge by lia. simpl. symmetry.
      apply lookup_replicate_None. lia. }
  split; [done|]. unfold get_initial_vmax. rewrite Hv, bind_Ok.
  destruct (length t) as [|n] eqn:Hn; [by destruct t|].
  apply np_max_replicate.
Qed.

Lemma gradient_of_constant_data_witness :
  _get_v scenario_t [replicate 4 (dec 3 1); replicate 4 (dec 5 1)]
    = Ok (replicate (length scenario_t) 0)
  ∧ get_initial_vmax scenario_t [replicate 4 (dec 3 1); replicate 4 (dec 5 1)]
    = Ok 0.
Proof.
  apply gradient_of_constant_data.
  - exact scenario_time_vector.
  - done.
  - done.
  - repeat constructor; by eexists.
Defined.

(** The initial vmax is an entry of the gradient curve and no entry of the
    curve is greater. *)
Theorem initial_vmax_is_greatest (t : list Qc) (data : list (list Qc)) (vmax : Qc) :
  get_initial_vmax t data = Ok vmax →
  ∃ v, _get_v t data = Ok v ∧ vmax ∈ v ∧ Forall (λ x, x ≤ vmax) v.
Proof.
  unfold get_initial_vmax. destruct (_get_v t data) as [v|e]; [|done].
  rewrite bind_Ok. intros Hmax. exists v. split; [done|].
  by apply np_max_spec.
Qed.

Lemma initial_vmax_is_greatest_witness :
  ∃ v, _get_v scenario_t scenario_data = Ok v
       ∧ dec 11 10 ∈ v ∧ Forall (λ x, x ≤ dec 11 10) v.
Proof. apply initial_vmax_is_greatest. compute_done. Defined.

(** The inner loop stops with a division by zero as soon as a nonzero time
    equals the time before it. *)
Lemma gradient_row_zero_step (t row : list Qc) (n k : nat) (pv pt : Qc) :
  length row = length t → (k + n = length row)%nat →
  (∃ j, (k ≤ j < k + n)%nat ∧ nth j t 0 ≠ 0
        ∧ nth j t 0 - (if decide (j = k) then pt else prev_time t j) = 0) →
  gradient_row t row (seq k n) pv pt = Err NotFinite.
Proof.
  intros Hlen. revert k pv pt.
  induction n as [|n IH]; intros k pv pt Hk (j & Hj & Hnz & Hstep); [lia|].
  simpl.
  destruct (lookup_lt_is_Some_2 t k) as [tk Htk]; [lia|].
  destruct (lookup_lt_is_Some_2 row k) as [x Hx]; [lia|].
  pose proof (nth_lookup_Some _ _ 0 _ Htk) as Htk'.
  rewrite (index_Ok _ _ _ Htk), bind_Ok, (index_Ok _ _ _ Hx), bind_Ok.
  assert (Hrest : j ≠ k →
    gradient_row t row (seq (S k) n) x tk = Err NotFinite).
  { intros Hjk. apply IH; [lia|]. exists j. split; [lia|]. split; [done|].
    rewrite decide_False in Hstep by done.
    case_decide as Hj'; [|done]. subst j. simpl in Hstep. by rewrite <- Htk'. }
  destruct (decide (tk = 0)) as [Hz|Hz].
  - rewrite bind_Ok, Hrest; [done|]. intros ->. congruence.
  - unfold fdiv. destruct (decide (tk - pt = 0)) as [Hd|Hd]; [done|].
    rewrite !bind_Ok, Hrest; [done|]. intros ->.
    rewrite decide_True in Hstep by done. congruence.
Qed.

(** The guard of [_get_v] tests [t[j] == 0], not [t[j] == prev_time]: when a
    nonzero time point is repeated, the rate divides by zero and the
    gradient curve is not a finite array. *)
Theorem gradient_of_repeated_time (t : list Qc) (data : list (list Qc)) (j : nat) :
  aligned t data → data ≠ [] →
  (S j < length t)%nat → nth (S j) t 0 = nth j t 0 → nth (S j) t 0 ≠ 0 →
  _get_v t data = Err NotFinite.
Proof.
  intros Halign Hdata Hj Heq Hnz.
  destruct data as [|row0 data']; [done|].
  apply Forall_cons in Halign as [Hrow0 _].
  unfold _get_v. rewrite mapM_cons.
  destruct (lookup_lt_is_Some_2 row0 0) as [x0 Hx0]; [lia|].
  rewrite (index_Ok _ _ _ Hx0), bind_Ok.
  rewrite (gradient_row_zero_step t row0 (length row0) 0); [done|done|done|].
  exists (S j). split; [lia|]. split; [done|].
  rewrite decide_False by done. simpl. rewrite Heq. ring.
Qed.

Lemma gradient_of_repeated_time_witness :
  _get_v [dec 0 1; dec 1 1; dec 1 1] [[dec 3 1; dec 2 1; dec 1 1]]
  = Err NotFinite.
Proof.
  apply (gradient_of_repeated_time _ _ 1).
  - repeat constructor.
  - done.
  - simpl. lia.
  - reflexivity.
  - done.
Defined.

(** ** Further properties of the residual functions *)

(** Both residual functions need the entry [S0], with or without [v0], and
    raise [KeyError] without it, whatever the data. *)
Theorem residual_requires_S0 {ode : Type}
    (odeint : ode → list Qc → list Qc → gmap string Qc → result (list (list Qc)))
    (params : gmap string Qc) (t : list Qc) (data : list (list Qc)) (f : ode) :
  params !! "S0" = None →
  _residual ode odeint params t data f = Err KeyError
  ∧ _residual_with_bias ode odeint params t data f = Err KeyError.
Proof.
  intros HS0. unfold _residual, _residual_with_bias, getitem. rewrite HS0.
  by destruct (params !! "v0").
Qed.

Lemma residual_requires_S0_witness :
  _residual () odeint_constant {[ "v0" := dec 1 1; "bias" := dec 1 10 ]}
    scenario_t scenario_data () = Err KeyError
  ∧ _residual_with_bias () odeint_constant
      {[ "v0" := dec 1 1; "bias" := dec 1 10 ]} scenario_t scenario_data ()
    = Err KeyError.
Proof. apply residual_requires_S0. reflexivity. Defined.

(** The values of the two residual functions, row by row. *)
Lemma residual_values {ode : Type}
    (odeint : ode → list Qc → list Qc → gmap string Qc → result (list (list Qc)))
    (params : gmap string Qc) (t : list Qc) (data : list (list Qc)) (f : ode)
    (s0 : Qc) (model : list (list Qc)) :
  odeint_shape odeint →
  params !! "S0" = Some s0 →
  aligned t data →
  odeint f (initial_state params s0) t params = Ok model →
  length model = length t
  ∧ _residual ode odeint params t data f
    = Ok (concat (map (λ row,
            zip_with (λ x w, x - nth (S_index params) w 0) row model) data))
  ∧ ∀ bias, params !! "bias" = Some bias →
      _residual_with_bias ode odeint params t data f
      = Ok (concat (map (λ row,
              zip_with (λ x w, x - (nth (S_index params) w 0 + bias)) row model)
              data)).
Proof.
  intros Hshape HS0 Halign Hode.
  pose proof (initial_state_lookup params s0 HS0) as Htry.
  destruct (Hshape _ _ _ _ _ Hode) as [Hmodel Hw].
  assert (Hcol : mapM (λ w, index w (S_index params)) model
                 = Ok (map (λ w, nth (S_index params) w 0) model)).
  { apply mapM_index_column.
    eapply Forall_impl; [exact Hw|]. intros w Hlen. simpl in Hlen.
    rewrite Hlen. unfold initial_state, S_index.
    destruct (params !! "v0"); simpl; lia. }
  assert (Hlen : length (map (λ w, nth (S_index params) w 0) model) = length t).
  { by rewrite length_map. }
  split; [done|].
  destruct (decide (data = [])) as [->|Hdata].
  - unfold _residual, _residual_with_bias. rewrite Htry. by split.
  - destruct (residual_loop_broadcast odeint Hshape params t data f Halign Hdata)
      as [-> ->].
    unfold residual_broadcast. rewrite Htry. simpl.
    unfold model_curve, solveODE. rewrite Hode. simpl. rewrite Hcol. simpl.
    split.
    + rewrite residual_rows_broadcast by (by rewrite Hlen).
      simpl. do 2 f_equal. apply map_ext. intros row.
      apply zip_with_minus_map.
    + intros bias Hbias. unfold getitem. rewrite Hbias. simpl.
      rewrite residual_rows_broadcast by (by rewrite length_map, Hlen).
      simpl. do 2 f_equal. apply map_ext. intros row.
      by rewrite map_map, zip_with_minus_map.
Qed.

(** With the entry [S0] but without the entry [bias], the bias-aware
    residual function raises [KeyError] in the first run of its loop; with
    no row to loop over it returns the empty vector. *)
Theorem residual_with_bias_requires_bias {ode : Type}
    (odeint : ode → list Qc → list Qc → gmap string Qc → result (list (list Qc)))
    (params : gmap string Qc) (t : list Qc) (data : list (list Qc)) (f : ode)
    (s0 : Qc) (model : list (list Qc)) :
  odeint_shape odeint →
  params !! "S0" = Some s0 →
  params !! "bias" = None →
  odeint f (initial_state params s0) t params = Ok model →
  _residual_with_bias ode odeint params t data f
  = if decide (data = []) then Ok [] else Err KeyError.
Proof.
  intros Hshape HS0 Hbias Hode.
  pose proof (initial_state_lookup params s0 HS0) as Htry.
  destruct (Hshape _ _ _ _ _ Hode) as [Hmodel Hw].
  assert (Hcol : mapM (λ w, index w (S_index params)) model
                 = Ok (map (λ w, nth (S_index params) w 0) model)).
  { apply mapM_index_column.
    eapply Forall_impl; [exact Hw|]. intros w Hlen. simpl in Hlen.
    rewrite Hlen. unfold initial_state, S_index.
    destruct (params !! "v0"); simpl; lia. }
  unfold _residual_with_bias. rewrite Htry, bind_Ok.
  destruct data as [|row0 data']; [done|].
  rewrite decide_False by done.
  cbn [length seq for_each]. unfold solveODE.
  rewrite Hode, bind_Ok, Hcol, bind_Ok. unfold getitem. by rewrite Hbias.
Qed.

Lemma residual_with_bias_requires_bias_witness :
  _residual_with_bias () odeint_constant {[ "S0" := dec 2 1 ]}
    scenario_t scenario_data ()
  = if decide (scenario_data = []) then Ok [] else Err KeyError.
Proof.
  apply (residual_with_bias_requires_bias odeint_constant _ _ _ _ (dec 2 1)
           [[dec 2 1]; [dec 2 1]; [dec 2 1]; [dec 2 1]]).
  - exact odeint_constant_shape.
  - reflexivity.
  - reflexivity.
  - reflexivity.
Defined.

Lemma length_concat_rows {A} (l : list (list A)) (n : nat) :
  Forall (λ r, length r = n) l → length (concat l) = (length l * n)%nat.
Proof.
  induction 1 as [|r l Hr Hl IH]; simpl; [done|].
  rewrite length_app, IH, Hr. lia.
Qed.

(** A residual vector has one entry per replicate and time point. *)
Theorem residual_length {ode : Type}
    (odeint : ode → list Qc → list Qc → gmap string Qc → result (list (list Qc)))
    (params : gmap string Qc) (t : list Qc) (data : list (list Qc)) (f : ode)
    (with_bias : bool) (residual : list Qc) :
  odeint_shape odeint →
  aligned t data →
  (if with_bias then _residual_with_bias ode odeint params t data f
   else _residual ode odeint params t data f) = Ok residual →
  length residual = (length data * length t)%nat.
Proof.
  intros Hshape Halign Hres.
  destruct (decide (data = [])) as [->|Hdata].
  - unfold _residual_with_bias, _residual in Hres.
    destruct (try_except_KeyError _ _) as [[w0 nW]|e];
      destruct with_bias; simplify_eq/=; done.
  - assert (Hb : residual_broadcast odeint with_bias params t data f = Ok residual).
    { destruct (residual_loop_broadcast odeint Hshape params t data f
                  Halign Hdata) as [H1 H2].
      destruct with_bias; congruence. }
    unfold residual_broadcast in Hb.
    destruct (try_except_KeyError _ _) as [[w0 nW]|e]; [|done].
    rewrite bind_Ok in Hb.
    destruct (model_curve odeint with_bias params t w0 nW f) as [curve|e]
      eqn:Hcurve; [|done].
    apply (model_curve_length odeint Hshape) in Hcurve.
    rewrite bind_Ok in Hb.
    rewrite residual_rows_broadcast in Hb by (by rewrite Hcurve).
    rewrite bind_Ok in Hb. injection Hb as <-.
    rewrite (length_concat_rows _ (length t)), length_map; [done|].
    rewrite map_is_fmap. apply Forall_fmap.
    eapply Forall_impl; [exact Halign|]. intros row Hrow. simpl in *.
    rewrite length_zip_with. lia.
Qed.

Lemma residual_length_witness :
  length [dec (-2) 1; dec (-1) 1; dec 0 1; dec 0 1;
          dec (-2) 1; dec (-8) 10; dec (-2) 10; dec 1 10]
  = (length scenario_data * length scenario_t)%nat.
Proof.
  apply (residual_length odeint_constant {[ "S0" := dec 2 1 ]}
           scenario_t scenario_data () false).
  - exact odeint_constant_shape.
  - exact scenario_aligned.
  - compute_done.
Defined.

Lemma zip_with_self_zero {A} (g : A → Qc) (l : list A) :
  zip_with (λ x w, x - g w) (map g l) l = replicate (length l) 0.
Proof.
  induction l as [|w l IH]; simpl; [done|].
  rewrite IH. f_equal. ring.
Qed.

Lemma concat_replicate_rows (n m : nat) (x : Qc) :
  concat (replicate n (replicate m x)) = replicate (n * m) x.
Proof.
  induction n as [|n IH]; simpl; [done|].
  by rewrite IH, replicate_add.
Qed.

(** On measurements which equal the modelled substrate curve in every
    replicate the residuals are all zero, and so are the residuals with
    bias on measurements which equal the curve plus the bias. *)
Theorem residual_of_exact_data {ode : Type}
    (odeint : ode → list Qc → list Qc → gmap string Qc → result (list (list Qc)))
    (params : gmap string Qc) (t : list Qc) (f : ode)
    (s0 : Qc) (model : list (list Qc)) (n : nat) :
  odeint_shape odeint →
  params !! "S0" = Some s0 →
  odeint f (initial_state params s0) t params = Ok model →
  _residual ode odeint params t
    (replicate n (map (λ w, nth (S_index params) w 0) model)) f
  = Ok (replicate (n * length t) 0)
  ∧ ∀ bias, params !! "bias" = Some bias →
      _residual_with_bias ode odeint params t
        (replicate n (map (λ w, nth (S_index params) w 0 + bias) model)) f
      = Ok (replicate (n * length t) 0).
Proof.
  intros Hshape HS0 Hode.
  destruct (Hshape _ _ _ _ _ Hode) as [Hmodel _].
  split.
  - destruct (residual_values odeint params t
                (replicate n (map (λ w, nth (S_index params) w 0) model)) f
                s0 model Hshape HS0) as (_ & -> & _); [|done|].
    { apply Forall_replicate. by rewrite length_map. }
    f_equal. rewrite map_is_fmap, fmap_replicate, zip_with_self_zero.
    by rewrite concat_replicate_rows, Hmodel.
  - intros bias Hbias.
    destruct (residual_values odeint params t
                (replicate n (map (λ w, nth (S_index params) w 0 + bias) model))
                f s0 model Hshape HS0) as (_ & _ & Hwith); [|done|].
    { apply Forall_replicate. by rewrite length_map. }
    rewrite (Hwith bias Hbias). f_equal.
    rewrite map_is_fmap, fmap_replicate.
    rewrite (zip_with_self_zero (λ w, nth (S_index params) w 0 + bias)).
    by rewrite concat_replicate_rows, Hmodel.
Qed.

Lemma residual_of_exact_data_witness :
  _residual () odeint_constant {[ "S0" := dec 2 1 ]} scenario_t
    (replicate 3 (map (λ w, nth (S_index {[ "S0" := dec 2 1 ]}) w 0)
                      [[dec 2 1]; [dec 2 1]; [dec 2 1]; [dec 2 1]])) ()
  = Ok (replicate (3 * length scenario_t) 0).
Proof.
  destruct (residual_of_exact_data odeint_constant {[ "S0" := dec 2 1 ]}
              scenario_t () (dec 2 1)
              [[dec 2 1]; [dec 2 1]; [dec 2 1]; [dec 2 1]] 3) as [H _].
  - exact odeint_constant_shape.
  - reflexivity.
  - reflexivity.
  - exact H.
Defined.

(** ** What [fit_model] returns *)

(** Without a bias [fit_model] returns what the minimizer returns for the
    plain residual function; with a bias it returns what the minimizer
    returns for the bias-aware one unless that is a [KeyError]; and a
    [KeyError] which [fit_model] raises is always the one of the run with
    the plain residual function. *)
Theorem fit_model_result {ode fitted : Type}
    (odeint : ode → list Qc → list Qc → gmap string Qc → result (list (list Qc)))
    (minimize :
       (gmap string Qc → result (list Qc)) → gmap string Qc → result fitted)
    (t : list Qc) (data : list (list Qc)) (params : gmap string Qc) (f : ode) :
  let plain := minimize (λ p, _residual ode odeint p t data f) params in
  let biased := minimize (λ p, _residual_with_bias ode odeint p t data f) params in
  let outcome := (fit_model ode odeint fitted minimize t data params f).2 in
  (params !! "bias" = None → outcome = plain)
  ∧ (is_Some (params !! "bias") → biased ≠ Err KeyError → outcome = biased)
  ∧ (is_Some (params !! "bias") → biased = Err KeyError → outcome = plain)
  ∧ (outcome = Err KeyError → plain = Err KeyError).
Proof.
  intros plain biased outcome. unfold outcome, fit_model, getitem.
  fold plain biased.
  destruct (params !! "bias") as [b|].
  - split; [done|]. split; [|split].
    + intros _ Hne. by destruct biased as [|[]].
    + by intros _ ->.
    + by destruct biased as [|[]].
  - split; [done|]. split; [by intros []|]. split; [by intros []|done].
Qed.

(** ** Conversion to concentrations *)

Lemma convert_to_conc_scale (x : Qc) :
  convert_to_conc x = x * (dec 1000 1 / dec 248 10).
Proof.
  assert (H1 : dec 248 10 ≠ 0) by done.
  unfold convert_to_conc, epsilon, d. by field.
Qed.

(** [convert_to_conc] never reverses the order of two absorptions, keeps
    the sign of a non-negative absorption and maps 0 to 0. *)
Theorem convert_to_conc_monotone :
  (∀ a b, a ≤ b → convert_to_conc a ≤ convert_to_conc b)
  ∧ (∀ a, 0 ≤ a → 0 ≤ convert_to_conc a)
  ∧ convert_to_conc 0 = 0.
Proof.
  assert (Hpos : 0 ≤ dec 1000 1 / dec 248 10) by done.
  assert (Hzero : convert_to_conc 0 = 0).
  { rewrite convert_to_conc_scale. ring. }
  assert (Hmono : ∀ a b, a ≤ b → convert_to_conc a ≤ convert_to_conc b).
  { intros a b Hab. rewrite !convert_to_conc_scale.
    by apply Qcmult_le_compat_r. }
  split; [done|]. split; [|done].
  intros a Ha. rewrite <- Hzero. by apply Hmono.
Qed.

(** ** Shape of the table of parameters *)

Lemma transpose_rows {A} (m : list (list A)) (n : nat) :
  Forall (λ r, length r = n) m →
  Forall (λ c, length c = length m) (transpose m).
Proof.
  induction m as [|r m IH]; intros Hall; [done|].
  apply Forall_cons in Hall as [Hr Hm].
  destruct m as [|r' m'].
  - simpl. rewrite map_is_fmap. apply Forall_fmap, Forall_forall. by intros.
  - change (transpose (r :: r' :: m')) with (zip_with cons r (transpose (r' :: m'))).
    specialize (IH Hm). apply Forall_forall. intros c Hc.
    apply elem_of_zip_with in Hc as (x & c' & -> & _ & Hc').
    rewrite Forall_forall in IH. simpl. by rewrite (IH c' Hc').
Qed.

(** The table has the names of the results as column labels, in their
    order, and the five fixed row labels; with at least one result it has
    five rows of one entry per result, with no result it is empty. *)
Theorem get_table_data_shape (results : list (string * gmap string Qc)) :
  (get_table_data results).1.2 = results.*1
  ∧ (get_table_data results).2 = row_labels
  ∧ (results = [] → (get_table_data results).1.1 = [])
  ∧ (results ≠ [] →
     length (get_table_data results).1.1 = 5%nat
     ∧ Forall (λ row, length row = length results) (get_table_data results).1.1).
Proof.
  unfold get_table_data. rewrite get_table_data_loop. cbn [fst snd app].
  split; [done|]. split; [done|]. split; [by intros ->|].
  intros Hne. unfold np_array_table.
  set (strings := existsb (existsb is_dash) _).
  assert (Hall : Forall (λ r : list array_entry, length r = 5%nat)
                   (map (map (to_entry strings))
                      ((λ r : string * gmap string Qc,
                          map (table_entry r.2) rows) <$> results))).
  { rewrite map_is_fmap. apply Forall_fmap, Forall_fmap, Forall_forall.
    by intros. }
  split.
  - apply transpose_length; [|done]. by destruct results.
  - pose proof (transpose_rows _ _ Hall) as Hrows.
    by rewrite length_map, length_fmap in Hrows.
Qed.

Lemma get_table_data_shape_witness :
  length (get_table_data
            [("fit", {[ "S0" := dec 1 1; "vmax" := dec 5 1 ]});
             ("other", ∅)]).1.1 = 5%nat
  ∧ Forall (λ row, length row = 2%nat)
      (get_table_data
         [("fit", {[ "S0" := dec 1 1; "vmax" := dec 5 1 ]}); ("other", ∅)]).1.1.
Proof.
  apply (get_table_data_shape
           [("fit", {[ "S0" := dec 1 1; "vmax" := dec 5 1 ]}); ("other", ∅)]).
  done.
Defined.

(** * Further properties of the document accessor *)

Section Registries.

Import EnzymeMLDocJSON.

Lemma default_last_cons {A} (d x : A) (l : list A) :
  default d (last (x :: l)) = default x (last l).
Proof. rewrite last_cons. by destruct (last l). Qed.

(** The inner loop of [getData] over the replicates of one participant. *)
Lemma getData_replicates_loop (rs : list replicate) (time : list Qc)
    (data : list (list Qc)) :
  foldl (λ '(time, data) rep, (rep_time rep, data ++ [rep_data rep]))
        (time, data) rs
  = (default time (last (map rep_time rs)), data ++ map rep_data rs).
Proof.
  revert time data. induction rs as [|r rs IH]; intros time data; simpl.
  - by rewrite app_nil_r.
  - rewrite IH, <- app_assoc. simpl.
    by rewrite (default_last_cons time).
Qed.

(** The scan of [getData] over the participants of a role. *)
Lemma getData_scan (ps : list participant) (species_id : string)
    (time : list Qc) (data : list (list Qc)) :
  foldl (λ '(time, data) reactant,
           if decide (species reactant = species_id) then
             foldl (λ '(time, data) rep, (rep_time rep, data ++ [rep_data rep]))
                   (time, data) (replicates reactant)
           else (time, data))
        (time, data) ps
  = (default time (last (map rep_time (species_replicates ps species_id))),
     data ++ map rep_data (species_replicates ps species_id)).
Proof.
  revert time data. induction ps as [|p ps IH]; intros time data; simpl.
  - by rewrite app_nil_r.
  - unfold species_replicates. rewrite filter_cons.
    destruct (decide (species p = species_id)) as [Hp|Hp].
    + rewrite getData_replicates_loop, IH. unfold species_replicates.
      simpl. rewrite !map_app, <- app_assoc. f_equal.
      rewrite last_app.
      by destruct (last (map rep_time (flat_map replicates
                     (filter (λ p0, species p0 = species_id) ps)))).
    + apply IH.
Qed.

(** [np.array] on rows of one length, and on rows of two lengths. *)
Lemma np_array_2d_Ok (rows : list (list Qc)) :
  (∀ r r', r ∈ rows → r' ∈ rows → length r = length r') →
  np_array_2d rows = Ok rows.
Proof.
  intros Hsame. destruct rows as [|r0 rest]; simpl; [done|].
  assert (Hall : forallb (λ r, Nat.eqb (length r) (length r0)) rest = true).
  { apply forallb_forall. intros r Hr%list_elem_of_In.
    apply Nat.eqb_eq. apply Hsame; [by right|by left]. }
  by rewrite Hall.
Qed.

Lemma np_array_2d_ragged (rows : list (list Qc)) (r r' : list Qc) :
  r ∈ rows → r' ∈ rows → length r ≠ length r' →
  np_array_2d rows = Err ValueError.
Proof.
  intros Hr Hr' Hne. destruct rows as [|r0 rest]; [by apply elem_of_nil in Hr|].
  simpl. destruct (forallb _ rest) eqn:Hall; [|done].
  exfalso. apply Hne.
  assert (Hlen : ∀ x, x ∈ r0 :: rest → length x = length r0).
  { intros x [->|Hx]%elem_of_cons; [done|].
    rewrite forallb_forall in Hall. apply Nat.eqb_eq, Hall.
    by apply list_elem_of_In. }
  by rewrite (Hlen r), (Hlen r').
Qed.

Lemma same_length_rows (reps : list replicate) :
  same_length reps →
  ∀ r r', r ∈ map rep_data reps → r' ∈ map rep_data reps → length r = length r'.
Proof.
  intros Hsame r r'. rewrite map_is_fmap.
  intros (x & -> & Hx)%list_elem_of_fmap (x' & -> & Hx')%list_elem_of_fmap.
  by apply Hsame.
Qed.

End Registries.

(** For a registered reaction and a species with a recorded role, when the
    replicates which the reaction lists for the species under that role
    all hold the same number of measurements, [getData] returns one data
    row per such replicate, in the order of the document, and as time
    vector the one of the last of these replicates alone (the empty vector
    when there is none). *)
Theorem getData_returns_replicates (self : EnzymeMLDocJSON.registries)
    (reaction species_id : string) (reac : EnzymeMLDocJSON.reaction)
    (ty : EnzymeMLDocJSON.role) :
  EnzymeMLDocJSON.dict_getitem (EnzymeMLDocJSON.reactionDic self) reaction
    = Ok reac →
  EnzymeMLDocJSON.typeDic self !! species_id = Some ty →
  same_length
    (species_replicates (EnzymeMLDocJSON.participants reac ty) species_id) →
  EnzymeMLDocJSON.getData self reaction species_id
  = Ok (default [] (last (map EnzymeMLDocJSON.rep_time
                      (species_replicates
                         (EnzymeMLDocJSON.participants reac ty) species_id))),
        map EnzymeMLDocJSON.rep_data
          (species_replicates (EnzymeMLDocJSON.participants reac ty) species_id)).
Proof.
  intros Hreac Hty Hsame. unfold EnzymeMLDocJSON.getData.
  rewrite Hreac, bind_Ok. unfold getitem. rewrite Hty, bind_Ok.
  rewrite getData_scan. cbn [app].
  by rewrite np_array_2d_Ok by (by apply same_length_rows).
Qed.

Lemma getData_returns_replicates_witness :
  EnzymeMLDocJSON.getData
    (EnzymeMLDocJSON.__init__ EnzymeMLDocJSON.empty_registries two_reactions).1
    "r2" "s2"
  = Ok ([dec 0 1; dec 1 1], [[dec 3 1; dec 2 1]]).
Proof.
  rewrite (getData_returns_replicates _ "r2" "s2"
             {| EnzymeMLDocJSON.reaction_id := "r2";
                EnzymeMLDocJSON.reaction_name := "second";
                EnzymeMLDocJSON.educts :=
                  [ {| EnzymeMLDocJSON.species := "s2";
                       EnzymeMLDocJSON.replicates :=
                         [ {| EnzymeMLDocJSON.rep_time := [dec 0 1; dec 1 1];
                              EnzymeMLDocJSON.rep_data := [dec 3 1; dec 2 1] |} ] |} ];
                EnzymeMLDocJSON.products := [];
                EnzymeMLDocJSON.modifiers := [] |}
             EnzymeMLDocJSON.Educts).
  - reflexivity.
  - reflexivity.
  - reflexivity.
  - intros r r' Hr Hr'. simpl in Hr, Hr'.
    apply list_elem_of_singleton in Hr as ->.
    by apply list_elem_of_singleton in Hr' as ->.
Defined.

(** For a registered reaction and a species with a recorded role, when two
    of the replicates which the reaction lists for the species under that
    role hold different numbers of measurements, [getData] raises the
    [ValueError] of [np.array(data)]. *)
Theorem getData_unequal_replicates (self : EnzymeMLDocJSON.registries)
    (reaction species_id : string) (reac : EnzymeMLDocJSON.reaction)
    (ty : EnzymeMLDocJSON.role) (r r' : EnzymeMLDocJSON.replicate) :
  EnzymeMLDocJSON.dict_getitem (EnzymeMLDocJSON.reactionDic self) reaction
    = Ok reac →
  EnzymeMLDocJSON.typeDic self !! species_id = Some ty →
  r ∈ species_replicates (EnzymeMLDocJSON.participants reac ty) species_id →
  r' ∈ species_replicates (EnzymeMLDocJSON.participants reac ty) species_id →
  length (EnzymeMLDocJSON.rep_data r) ≠ length (EnzymeMLDocJSON.rep_data r') →
  EnzymeMLDocJSON.getData self reaction species_id = Err ValueError.
Proof.
  intros Hreac Hty Hr Hr' Hne. unfold EnzymeMLDocJSON.getData.
  rewrite Hreac, bind_Ok. unfold getitem. rewrite Hty, bind_Ok.
  rewrite getData_scan. cbn [app].
  rewrite (np_array_2d_ragged _ (EnzymeMLDocJSON.rep_data r)
             (EnzymeMLDocJSON.rep_data r')); [done| | |done].
  - rewrite map_is_fmap. by apply list_elem_of_fmap_2.
  - rewrite map_is_fmap. by apply list_elem_of_fmap_2.
Qed.

Lemma getData_unequal_replicates_witness :
  EnzymeMLDocJSON.getData
    {| EnzymeMLDocJSON.protDic := ∅;
       EnzymeMLDocJSON.reactantDic := {[ "s1" := "pyruvate" ]};
       EnzymeMLDocJSON.reactionDic :=
         [("r1", {| EnzymeMLDocJSON.reaction_id := "r1";
                    EnzymeMLDocJSON.reaction_name := "first";
                    EnzymeMLDocJSON.educts :=
                      [ {| EnzymeMLDocJSON.species := "s1";
                           EnzymeMLDocJSON.replicates :=
                             [ {| EnzymeMLDocJSON.rep_time := [dec 0 1; dec 1 1];
                                  EnzymeMLDocJSON.rep_data := [dec 2 1; dec 1 1] |};
                               {| EnzymeMLDocJSON.rep_time := [dec 0 1];
                                  EnzymeMLDocJSON.rep_data := [dec 2 1] |} ] |} ];
                    EnzymeMLDocJSON.products := [];
                    EnzymeMLDocJSON.modifiers := [] |})];
       EnzymeMLDocJSON.typeDic := {[ "s1" := EnzymeMLDocJSON.Educts ]} |}
    "r1" "s1"
  = Err ValueError.
Proof.
  eapply (getData_unequal_replicates _ "r1" "s1" _ EnzymeMLDocJSON.Educts
            {| EnzymeMLDocJSON.rep_time := [dec 0 1; dec 1 1];
               EnzymeMLDocJSON.rep_data := [dec 2 1; dec 1 1] |}
            {| EnzymeMLDocJSON.rep_time := [dec 0 1];
               EnzymeMLDocJSON.rep_data := [dec 2 1] |}).
  - reflexivity.
  - reflexivity.
  - simpl. by left.
  - simpl. right. by left.
  - simpl. lia.
Defined.

Section Loading.

Import EnzymeMLDocJSON.

(** The dictionaries of the object built by [__init__]. *)
Lemma init_registries (cls : registries) (doc : document) :
  protDic (__init__ cls doc).1 = _setProteinDic doc (protDic cls)
  ∧ reactantDic (__init__ cls doc).1 = _setReactantDic doc (reactantDic cls)
  ∧ reactionDic (__init__ cls doc).1 = _setReactionDic doc (reactionDic cls)
  ∧ typeDic (__init__ cls doc).1
    = (__str__ (_setProteinDic doc (protDic cls))
         (_setReactantDic doc (reactantDic cls))
         (_setReactionDic doc (reactionDic cls)) (typeDic cls)).1
  ∧ (__init__ cls doc).2
    = (__str__ (_setProteinDic doc (protDic cls))
         (_setReactantDic doc (reactantDic cls))
         (_setReactionDic doc (reactionDic cls)) (typeDic cls)).2.
Proof.
  unfold __init__. by destruct (__str__ _ _ _ _).
Qed.

Lemma setReactionDic_other (l : list reaction) (dic : list (string * reaction))
    (key : string) :
  (∀ reac, reac ∈ l → reaction_id reac ≠ key) →
  dict_getitem (foldl (λ dic r, dict_set dic (reaction_id r) r) dic l) key
  = dict_getitem dic key.
Proof.
  revert dic. induction l as [|r l IH]; intros dic Hl; simpl; [done|].
  rewrite IH.
  - rewrite dict_getitem_set, decide_False; [done|]. apply Hl. by left.
  - intros reac Hin. apply Hl. by right.
Qed.

Lemma setDic_other (l : list (string * string)) (dic : gmap string string)
    (key : string) :
  key ∉ l.*1 →
  foldl (λ dic p, <[p.1 := p.2]> dic) dic l !! key = dic !! key.
Proof.
  revert dic. induction l as [|[k v] l IH]; intros dic Hl; simpl; [done|].
  simpl in Hl. apply not_elem_of_cons in Hl as [Hk Hl].
  rewrite IH by done. by rewrite lookup_insert_ne.
Qed.

Lemma setDic_declared (l : list (string * string)) (dic : gmap string string)
    (key : string) :
  key ∈ l.*1 ∨ is_Some (dic !! key) →
  is_Some (foldl (λ dic p, <[p.1 := p.2]> dic) dic l !! key).
Proof.
  revert dic. induction l as [|[k v] l IH]; intros dic Hl; simpl.
  - destruct Hl as [Hl|Hl]; [by apply elem_of_nil in Hl|done].
  - apply IH. simpl in Hl. destruct (decide (k = key)) as [->|Hne].
    + right. rewrite lookup_insert_eq. by eexists.
    + destruct Hl as [Hl|Hl].
      * apply elem_of_cons in Hl as [Hl|Hl]; [congruence|by left].
      * right. by rewrite lookup_insert_ne.
Qed.

End Loading.

(** Loading a document registers each of its reactions under its id: the
    lookup of an id returns the last reaction of the document with that id,
    whatever the class dictionaries held before. *)
Theorem init_registers_last_reaction (cls : EnzymeMLDocJSON.registries)
    (doc : EnzymeMLDocJSON.document)
    (before after : list EnzymeMLDocJSON.reaction)
    (reac : EnzymeMLDocJSON.reaction) :
  EnzymeMLDocJSON.reactions doc = before ++ reac :: after →
  (∀ later, later ∈ after →
     EnzymeMLDocJSON.reaction_id later ≠ EnzymeMLDocJSON.reaction_id reac) →
  EnzymeMLDocJSON.dict_getitem
    (EnzymeMLDocJSON.reactionDic (EnzymeMLDocJSON.__init__ cls doc).1)
    (EnzymeMLDocJSON.reaction_id reac)
  = Ok reac.
Proof.
  intros Hdoc Hafter.
  destruct (init_registries cls doc) as (_ & _ & -> & _).
  unfold EnzymeMLDocJSON._setReactionDic. rewrite Hdoc, foldl_app. simpl.
  rewrite setReactionDic_other by done.
  by rewrite dict_getitem_set, decide_True.
Qed.

Lemma init_registers_last_reaction_witness :
  ∃ reac,
    EnzymeMLDocJSON.reactions two_reactions !! 1%nat = Some reac
    ∧ EnzymeMLDocJSON.dict_getitem
        (EnzymeMLDocJSON.reactionDic
           (EnzymeMLDocJSON.__init__ EnzymeMLDocJSON.empty_registries
              two_reactions).1)
        (EnzymeMLDocJSON.reaction_id reac)
      = Ok reac.
Proof.
  eexists. split; [reflexivity|].
  eapply (init_registers_last_reaction _ two_reactions [_] []).
  - reflexivity.
  - intros later Hin. by apply elem_of_nil in Hin.
Defined.

(** Loading a document keeps what earlier documents left in the class
    dictionaries: a reaction, a protein or a reactant registered under an
    id which the new document does not use is still returned after the
    load. *)
Theorem init_keeps_earlier_entries (cls : EnzymeMLDocJSON.registries)
    (doc : EnzymeMLDocJSON.document) (key : string) :
  ((∀ reac, reac ∈ EnzymeMLDocJSON.reactions doc →
            EnzymeMLDocJSON.reaction_id reac ≠ key) →
   EnzymeMLDocJSON.dict_getitem
     (EnzymeMLDocJSON.reactionDic (EnzymeMLDocJSON.__init__ cls doc).1) key
   = EnzymeMLDocJSON.dict_getitem (EnzymeMLDocJSON.reactionDic cls) key)
  ∧ (key ∉ (EnzymeMLDocJSON.protein doc).*1 →
     EnzymeMLDocJSON.protDic (EnzymeMLDocJSON.__init__ cls doc).1 !! key
     = EnzymeMLDocJSON.protDic cls !! key)
  ∧ (key ∉ (EnzymeMLDocJSON.reactant doc).*1 →
     EnzymeMLDocJSON.reactantDic (EnzymeMLDocJSON.__init__ cls doc).1 !! key
     = EnzymeMLDocJSON.reactantDic cls !! key).
Proof.
  destruct (init_registries cls doc) as (-> & -> & -> & _).
  split; [|split].
  - intros Hother. by apply setReactionDic_other.
  - intros Hother. by apply setDic_other.
  - intros Hother. by apply setDic_other.
Qed.

Lemma init_keeps_earlier_entries_witness :
  EnzymeMLDocJSON.dict_getitem
    (EnzymeMLDocJSON.reactionDic
       (EnzymeMLDocJSON.__init__
          (EnzymeMLDocJSON.__init__ EnzymeMLDocJSON.empty_registries
             two_reactions).1
          {| EnzymeMLDocJSON.name := "empty"; EnzymeMLDocJSON.protein := [];
             EnzymeMLDocJSON.reactant := []; EnzymeMLDocJSON.reactions := [] |}).1)
    "r1"
  = EnzymeMLDocJSON.dict_getitem
      (EnzymeMLDocJSON.reactionDic
         (EnzymeMLDocJSON.__init__ EnzymeMLDocJSON.empty_registries
            two_reactions).1) "r1".
Proof.
  apply init_keeps_earlier_entries.
  intros reac Hin. by apply elem_of_nil in Hin.
Defined.

Section Construction.

Import EnzymeMLDocJSON.

Lemma for_each_keep_Ok {A S} (xs : list A) (body : A → S → S * result ()) (s : S) :
  (∀ x s, x ∈ xs → (body x s).2 = Ok ()) →
  (for_each_keep xs body s).2 = Ok ().
Proof.
  revert s. induction xs as [|x xs IH]; intros s Hbody; simpl; [done|].
  pose proof (Hbody x s ltac:(by left)) as Hx.
  destruct (body x s) as [s' [[]|e]]; simpl in Hx; [|done].
  apply IH. intros y s0 Hy. apply Hbody. by right.
Qed.

Lemma for_each_keep_fails {A S} (xs : list A) (body : A → S → S * result ())
    (s : S) (x : A) :
  x ∈ xs → (∀ s, (body x s).2 ≠ Ok ()) →
  (for_each_keep xs body s).2 ≠ Ok ().
Proof.
  revert s. induction xs as [|y xs IH]; intros s Hin Hx;
    [by apply elem_of_nil in Hin|].
  simpl. destruct (body y s) as [s' [[]|e]] eqn:Hy; simpl; [|done].
  apply elem_of_cons in Hin as [->|Hin].
  - specialize (Hx s). by rewrite Hy in Hx.
  - by apply IH.
Qed.

Lemma for_each_keep_kind {A S} (xs : list A) (body : A → S → S * result ())
    (s : S) (e : exn) :
  (∀ x s e, x ∈ xs → (body x s).2 = Err e → e = KeyError) →
  (for_each_keep xs body s).2 = Err e → e = KeyError.
Proof.
  revert s. induction xs as [|y xs IH]; intros s Hkind; simpl; [done|].
  pose proof (Hkind y s) as Hy.
  destruct (body y s) as [s' [[]|e']]; simpl in *.
  - apply IH. intros x s0 e0 Hx. apply Hkind. by right.
  - intros [= <-]. apply Hy; [by left|done].
Qed.

(** The loop of [__str__] over the educts, or the products, of a reaction:
    it stops at the first one which is not a reactant. *)
Lemma str_role_loop_Ok (reactantDic : gmap string string) (ty : role)
    (ps : list participant) (td : gmap string role) :
  (∀ p, p ∈ ps → is_Some (reactantDic !! species p)) →
  (for_each_keep ps (λ p td,
     match getitem reactantDic (species p) with
     | Ok _ => (<[species p := ty]> td, Ok ())
     | Err e => (td, Err e)
     end) td).2 = Ok ().
Proof.
  intros Hps. apply for_each_keep_Ok. intros p td' Hp.
  destruct (Hps p Hp) as [v Hv]. unfold getitem. by rewrite Hv.
Qed.

Lemma str_role_loop_fails (reactantDic : gmap string string) (ty : role)
    (ps : list participant) (td : gmap string role) (p : participant) :
  p ∈ ps → reactantDic !! species p = None →
  (for_each_keep ps (λ p td,
     match getitem reactantDic (species p) with
     | Ok _ => (<[species p := ty]> td, Ok ())
     | Err e => (td, Err e)
     end) td).2 ≠ Ok ().
Proof.
  intros Hp Hnone. apply (for_each_keep_fails _ _ _ p Hp).
  intros td'. unfold getitem. by rewrite Hnone.
Qed.

Lemma str_role_loop_kind (reactantDic : gmap string string) (ty : role)
    (ps : list participant) (td : gmap string role) (e : exn) :
  (for_each_keep ps (λ p td,
     match getitem reactantDic (species p) with
     | Ok _ => (<[species p := ty]> td, Ok ())
     | Err e => (td, Err e)
     end) td).2 = Err e → e = KeyError.
Proof.
  apply for_each_keep_kind. intros p td' e' _. unfold getitem.
  destruct (reactantDic !! species p); simpl; congruence.
Qed.

Lemma str_modifiers_loop_Ok (protDic reactantDic : gmap string string)
    (ps : list participant) (td : gmap string role) :
  (for_each_keep ps (λ modifier typeDic,
     let typeDic :=
       match getitem reactantDic (species modifier) with
       | Ok _ => <[species modifier := Modifiers]> typeDic
       | Err _ => typeDic
       end in
     let typeDic :=
       match getitem protDic (species modifier) with
       | Ok _ => <[species modifier := Modifiers]> typeDic
       | Err _ => typeDic
       end in
     (typeDic, Ok ())) td).2 = Ok ().
Proof. by apply for_each_keep_Ok. Qed.

(** [__str__] succeeds when the educts and products of the registered
    reactions are reactants, fails when one is not, and fails with
    [KeyError] only. *)
Lemma str_Ok protDic reactantDic reactionDic typeDic :
  Forall (λ kv : string * reaction,
            ∀ p, p ∈ educts kv.2 ++ products kv.2 →
                 is_Some (reactantDic !! species p)) reactionDic →
  (__str__ protDic reactantDic reactionDic typeDic).2 = Ok ().
Proof.
  intros Hall. unfold __str__. apply for_each_keep_Ok.
  intros [id reac] td Hin. rewrite Forall_forall in Hall.
  specialize (Hall _ Hin). simpl in Hall.
  pose proof (str_role_loop_Ok reactantDic Educts (educts reac) td) as H1.
  destruct (for_each_keep (educts reac) _ td) as [td1 r1].
  simpl in H1. rewrite H1.
  2:{ intros p Hp. apply Hall, elem_of_app. by left. }
  pose proof (str_role_loop_Ok reactantDic Products (products reac) td1) as H2.
  destruct (for_each_keep (products reac) _ td1) as [td2 r2].
  simpl in H2. rewrite H2.
  2:{ intros p Hp. apply Hall, elem_of_app. by right. }
  apply str_modifiers_loop_Ok.
Qed.

Lemma str_fails protDic reactantDic reactionDic typeDic id reac p :
  (id, reac) ∈ reactionDic →
  p ∈ educts reac ++ products reac →
  reactantDic !! species p = None →
  (__str__ protDic reactantDic reactionDic typeDic).2 ≠ Ok ().
Proof.
  intros Hin Hp Hnone. unfold __str__.
  apply (for_each_keep_fails _ _ _ (id, reac) Hin).
  intros td. simpl.
  apply elem_of_app in Hp as [Hp|Hp].
  - pose proof (str_role_loop_fails reactantDic Educts (educts reac) td p
                  Hp Hnone) as H1.
    by destruct (for_each_keep (educts reac) _ td) as [td1 [[]|e1]].
  - destruct (for_each_keep (educts reac) _ td) as [td1 [[]|e1]]; [|done].
    pose proof (str_role_loop_fails reactantDic Products (products reac) td1 p
                  Hp Hnone) as H2.
    by destruct (for_each_keep (products reac) _ td1) as [td2 [[]|e2]].
Qed.

Lemma str_kind protDic reactantDic reactionDic typeDic e :
  (__str__ protDic reactantDic reactionDic typeDic).2 = Err e → e = KeyError.
Proof.
  unfold __str__. apply for_each_keep_kind.
  intros [id reac] td e' _. simpl.
  pose proof (str_role_loop_kind reactantDic Educts (educts reac) td) as H1.
  destruct (for_each_keep (educts reac) _ td) as [td1 [[]|e1]]; simpl in *.
  2:{ intros [= <-]. by apply H1. }
  pose proof (str_role_loop_kind reactantDic Products (products reac) td1) as H2.
  destruct (for_each_keep (products reac) _ td1) as [td2 [[]|e2]]; simpl in *.
  2:{ intros [= <-]. by apply H2. }
  by rewrite str_modifiers_loop_Ok.
Qed.

Lemma dict_set_fresh {V} (d : list (string * V)) (key : string) (v : V) :
  key ∉ d.*1 → dict_set d key v = d ++ [(key, v)].
Proof.
  induction d as [|[k w] d IH]; intros Hkey; simpl; [done|].
  simpl in Hkey. apply not_elem_of_cons in Hkey as [Hne Hkey].
  rewrite decide_False by done. by rewrite IH.
Qed.

(** With distinct ids the reactions are registered in the order of the
    document. *)
Lemma setReactionDic_distinct (l : list reaction) (dic : list (string * reaction)) :
  NoDup (dic.*1 ++ map reaction_id l) →
  foldl (λ dic r, dict_set dic (reaction_id r) r) dic l
  = dic ++ map (λ r, (reaction_id r, r)) l.
Proof.
  revert dic. induction l as [|r l IH]; intros dic Hnd; simpl.
  - by rewrite app_nil_r.
  - simpl in Hnd. rewrite dict_set_fresh.
    + rewrite IH, <- app_assoc; [done|].
      rewrite fmap_app. simpl. by rewrite <- app_assoc.
    + apply NoDup_app in Hnd as (_ & Hdisj & _).
      intros Hin. apply (Hdisj _ Hin). by left.
Qed.

End Construction.

(** A document whose educts and products are all declared as reactants
    loads without exception into fresh class dictionaries; modifiers never
    make the load fail. *)
Theorem init_succeeds (doc : EnzymeMLDocJSON.document) :
  participants_declared doc →
  (EnzymeMLDocJSON.__init__ EnzymeMLDocJSON.empty_registries doc).2 = Ok ().
Proof.
  intros Hdecl.
  destruct (init_registries EnzymeMLDocJSON.empty_registries doc)
    as (_ & _ & _ & _ & ->).
  apply str_Ok. unfold EnzymeMLDocJSON._setReactionDic.
  apply (setReactionDic_values
           (λ reac, ∀ p, p ∈ EnzymeMLDocJSON.educts reac
                             ++ EnzymeMLDocJSON.products reac →
                         is_Some (EnzymeMLDocJSON._setReactantDic doc
                                    (EnzymeMLDocJSON.reactantDic
                                       EnzymeMLDocJSON.empty_registries)
                                  !! EnzymeMLDocJSON.species p))); [done|].
  apply Forall_forall. intros reac Hreac p Hp.
  apply setDic_declared. left. by apply (Hdecl reac p).
Qed.

Lemma init_succeeds_witness :
  (EnzymeMLDocJSON.__init__ EnzymeMLDocJSON.empty_registries two_reactions).2
  = Ok ().
Proof.
  apply init_succeeds. intros reac p Hreac Hp.
  unfold two_reactions in *. simpl in *.
  repeat (apply elem_of_cons in Hreac as [->|Hreac];
          [ simpl in Hp; apply list_elem_of_singleton in Hp as ->; simpl;
            repeat constructor | ]).
  by apply elem_of_nil in Hreac.
Defined.

(** A document with distinct reaction ids in which an educt or a product of
    a reaction is not declared as a reactant does not load into fresh class
    dictionaries: the constructor raises [KeyError]. *)
Theorem init_fails_undeclared (doc : EnzymeMLDocJSON.document)
    (reac : EnzymeMLDocJSON.reaction) (p : EnzymeMLDocJSON.participant) :
  distinct_reaction_ids doc →
  reac ∈ EnzymeMLDocJSON.reactions doc →
  p ∈ EnzymeMLDocJSON.educts reac ++ EnzymeMLDocJSON.products reac →
  EnzymeMLDocJSON.species p ∉ (EnzymeMLDocJSON.reactant doc).*1 →
  (EnzymeMLDocJSON.__init__ EnzymeMLDocJSON.empty_registries doc).2
  = Err KeyError.
Proof.
  intros Hids Hreac Hp Hundeclared.
  destruct (init_registries EnzymeMLDocJSON.empty_registries doc)
    as (_ & _ & _ & _ & ->).
  destruct (EnzymeMLDocJSON.__str__ _ _ _ _).2 as [[]|e] eqn:Hstr.
  - exfalso. revert Hstr.
    apply (str_fails _ _ _ _ (EnzymeMLDocJSON.reaction_id reac) reac p);
      [|done|].
    + unfold EnzymeMLDocJSON._setReactionDic. simpl.
      rewrite setReactionDic_distinct by done. simpl.
      rewrite map_is_fmap.
      by apply (list_elem_of_fmap_2
                  (λ r, (EnzymeMLDocJSON.reaction_id r, r))).
    + unfold EnzymeMLDocJSON._setReactantDic. simpl.
      by rewrite setDic_other.
  - by apply str_kind in Hstr as ->.
Qed.

Lemma init_fails_undeclared_witness :
  (EnzymeMLDocJSON.__init__ EnzymeMLDocJSON.empty_registries
     {| EnzymeMLDocJSON.name := "undeclared";
        EnzymeMLDocJSON.protein := [];
        EnzymeMLDocJSON.reactant := [("s1", "pyruvate")];
        EnzymeMLDocJSON.reactions :=
          [ {| EnzymeMLDocJSON.reaction_id := "r1";
               EnzymeMLDocJSON.reaction_name := "first";
               EnzymeMLDocJSON.educts := [];
               EnzymeMLDocJSON.products :=
                 [ {| EnzymeMLDocJSON.species := "s9";
                      EnzymeMLDocJSON.replicates := [] |} ];
               EnzymeMLDocJSON.modifiers := [] |} ] |}).2
  = Err KeyError.
Proof.
  eapply init_fails_undeclared.
  - unfold distinct_reaction_ids. simpl. repeat constructor.
    by intros ?%elem_of_nil.
  - simpl. by left.
  - simpl. by left.
  - simpl. by intros ?%list_elem_of_singleton.
Defined.

Section Roles.

Import EnzymeMLDocJSON.

(** A loop which ran to its end keeps what one run of its body sets up and
    no run takes away. *)
Lemma for_each_keep_establishes {A S} (P : S → Prop) (xs : list A)
    (body : A → S → S * result ()) (s : S) (x : A) :
  x ∈ xs →
  (∀ y s, y ∈ xs → P s → P (body y s).1) →
  (∀ s, (body x s).2 = Ok () → P (body x s).1) →
  (for_each_keep xs body s).2 = Ok () →
  P (for_each_keep xs body s).1.
Proof.
  revert s. induction xs as [|y xs IH]; intros s Hin Hkeep Hset;
    [by apply elem_of_nil in Hin|].
  simpl.
  pose proof (Hset s) as Hset_s.
  pose proof (λ Hs, Hkeep y s ltac:(by left) Hs) as Hkeep_s.
  destruct (body y s) as [s' [[]|e]] eqn:Hy; simpl in *; [|done].
  intros Hend.
  apply elem_of_cons in Hin as [->|Hin].
  - apply for_each_keep_invariant.
    + intros z s0 Hz. apply Hkeep. by right.
    + rewrite Hy in Hset_s. by apply Hset_s.
  - apply IH; [done| |done|done].
    intros z s0 Hz. apply Hkeep. by right.
Qed.

(** The loop of [__str__] over one role keeps the record [Educts] of a
    species when the role is [Educts] or the species is not in the loop. *)
Lemma str_role_loop_keeps (reactantDic : gmap string string) (ty : role)
    (ps : list participant) (td : gmap string role) (species_id : string) :
  ty = Educts ∨ species_id ∉ map species ps →
  td !! species_id = Some Educts →
  (for_each_keep ps (λ p td,
     match getitem reactantDic (species p) with
     | Ok _ => (<[species p := ty]> td, Ok ())
     | Err e => (td, Err e)
     end) td).1 !! species_id = Some Educts.
Proof.
  intros Hty.
  apply (for_each_keep_invariant (λ td : gmap string role,
           td !! species_id = Some Educts)).
  intros p td' Hp Htd'. destruct (getitem reactantDic (species p)); [|done].
  simpl. destruct (decide (species p = species_id)) as [Heq|Hne].
  - destruct Hty as [->|Hnot].
    + rewrite Heq. apply lookup_insert_eq.
    + exfalso. apply Hnot. rewrite <- Heq, map_is_fmap.
      by apply list_elem_of_fmap_2.
  - by rewrite lookup_insert_ne.
Qed.

Lemma str_modifiers_loop_keeps (protDic reactantDic : gmap string string)
    (ps : list participant) (td : gmap string role) (species_id : string) :
  species_id ∉ map species ps →
  td !! species_id = Some Educts →
  (for_each_keep ps (λ modifier typeDic,
     let typeDic :=
       match getitem reactantDic (species modifier) with
       | Ok _ => <[species modifier := Modifiers]> typeDic
       | Err _ => typeDic
       end in
     let typeDic :=
       match getitem protDic (species modifier) with
       | Ok _ => <[species modifier := Modifiers]> typeDic
       | Err _ => typeDic
       end in
     (typeDic, Ok ())) td).1 !! species_id = Some Educts.
Proof.
  intros Hnot.
  apply (for_each_keep_invariant (λ td : gmap string role,
           td !! species_id = Some Educts)).
  intros p td' Hp Htd'. simpl.
  assert (Hne : species p ≠ species_id).
  { intros Heq. apply Hnot. rewrite <- Heq, map_is_fmap.
    by apply list_elem_of_fmap_2. }
  destruct (getitem reactantDic (species p)), (getitem protDic (species p));
    rewrite ?lookup_insert_ne; done.
Qed.

(** After [__str__] ran to its end, a species which is an educt of a
    registered reaction and neither a product nor a modifier of any has the
    role [Educts]. *)
Lemma str_records_educt protDic reactantDic reactionDic typeDic id reac species_id :
  (id, reac) ∈ reactionDic →
  species_id ∈ map species (educts reac) →
  Forall (λ kv : string * reaction,
            species_id ∉ map species (products kv.2 ++ modifiers kv.2))
         reactionDic →
  (__str__ protDic reactantDic reactionDic typeDic).2 = Ok () →
  (__str__ protDic reactantDic reactionDic typeDic).1 !! species_id
  = Some Educts.
Proof.
  intros Hin Heduct Hother. unfold __str__.
  rewrite Forall_forall in Hother.
  assert (Hsplit : ∀ kv : string * reaction, kv ∈ reactionDic →
            (species_id ∉ map species (products kv.2))
            ∧ (species_id ∉ map species (modifiers kv.2))).
  { intros kv Hkv. specialize (Hother kv Hkv).
    rewrite map_app, elem_of_app in Hother. tauto. }
  apply (for_each_keep_establishes
           (λ td : gmap string role, td !! species_id = Some Educts)
           _ _ _ (id, reac) Hin).
  - intros [id' reac'] td Hin' Htd. destruct (Hsplit _ Hin') as [Hp Hm].
    simpl in Hp, Hm. simpl.
    pose proof (str_role_loop_keeps reactantDic Educts (educts reac') td
                  species_id ltac:(by left) Htd) as H1.
    destruct (for_each_keep (educts reac') _ td) as [td1 [[]|e1]]; [|done].
    simpl in H1.
    pose proof (str_role_loop_keeps reactantDic Products (products reac') td1
                  species_id ltac:(by right) H1) as H2.
    destruct (for_each_keep (products reac') _ td1) as [td2 [[]|e2]]; [|done].
    simpl in H2.
    by apply str_modifiers_loop_keeps.
  - intros td. destruct (Hsplit _ Hin) as [Hp Hm]. simpl in Hp, Hm. simpl.
    rewrite map_is_fmap in Heduct.
    apply list_elem_of_fmap in Heduct as (p & -> & Hpin).
    pose proof (for_each_keep_establishes
                  (λ td : gmap string role, td !! species p = Some Educts)
                  (educts reac)
                  (λ p td,
                     match getitem reactantDic (species p) with
                     | Ok _ => (<[species p := Educts]> td, Ok ())
                     | Err e => (td, Err e)
                     end) td p Hpin) as H1.
    destruct (for_each_keep (educts reac) _ td) as [td1 [[]|e1]]; [|done].
    simpl in H1.
    assert (Htd1 : td1 !! species p = Some Educts).
    { apply H1; [| |done].
      - intros q td' Hq Htd'.
        destruct (getitem reactantDic (species q)); [|done]. simpl.
        destruct (decide (species q = species p)) as [->|Hne].
        + apply lookup_insert_eq.
        + by rewrite lookup_insert_ne.
      - intros td'. destruct (getitem reactantDic (species p)); [|done].
        intros _. simpl. apply lookup_insert_eq. }
    pose proof (str_role_loop_keeps reactantDic Products (products reac) td1
                  (species p) ltac:(by right) Htd1) as H2.
    destruct (for_each_keep (products reac) _ td1) as [td2 [[]|e2]]; [|done].
    simpl in H2. intros _.
    by apply str_modifiers_loop_keeps.
Qed.

End Roles.

(** In a document with distinct reaction ids, loaded into fresh class
    dictionaries, [getData] for a reaction and one of its educts which is
    nowhere a product or a modifier, listed with replicates which all hold
    the same number of measurements, returns these replicates: one data
    row per replicate in the order of the document, with the time vector
    of the last replicate. *)
Theorem getData_of_educt (doc : EnzymeMLDocJSON.document)
    (self : EnzymeMLDocJSON.registries) (reac : EnzymeMLDocJSON.reaction)
    (species_id : string) :
  EnzymeMLDocJSON.__init__ EnzymeMLDocJSON.empty_registries doc = (self, Ok ()) →
  distinct_reaction_ids doc →
  reac ∈ EnzymeMLDocJSON.reactions doc →
  species_id ∈ map EnzymeMLDocJSON.species (EnzymeMLDocJSON.educts reac) →
  (∀ other, other ∈ EnzymeMLDocJSON.reactions doc →
     species_id ∉ map EnzymeMLDocJSON.species
                      (EnzymeMLDocJSON.products other
                       ++ EnzymeMLDocJSON.modifiers other)) →
  same_length (species_replicates (EnzymeMLDocJSON.educts reac) species_id) →
  EnzymeMLDocJSON.getData self (EnzymeMLDocJSON.reaction_id reac) species_id
  = Ok (default [] (last (map EnzymeMLDocJSON.rep_time
                      (species_replicates (EnzymeMLDocJSON.educts reac)
                         species_id))),
        map EnzymeMLDocJSON.rep_data
          (species_replicates (EnzymeMLDocJSON.educts reac) species_id)).
Proof.
  intros Hinit Hids Hreac Heduct Hother Hsame.
  destruct (init_registries EnzymeMLDocJSON.empty_registries doc)
    as (_ & _ & HRD & Htd & Hres).
  rewrite Hinit in HRD, Htd, Hres. simpl in HRD, Htd, Hres.
  assert (Hdic : EnzymeMLDocJSON.reactionDic self
                 = map (λ r, (EnzymeMLDocJSON.reaction_id r, r))
                       (EnzymeMLDocJSON.reactions doc)).
  { rewrite HRD. unfold EnzymeMLDocJSON._setReactionDic.
    by rewrite setReactionDic_distinct. }
  assert (Hlookup : EnzymeMLDocJSON.dict_getitem
                      (EnzymeMLDocJSON.reactionDic self)
                      (EnzymeMLDocJSON.reaction_id reac) = Ok reac).
  { rewrite HRD. unfold EnzymeMLDocJSON._setReactionDic.
    apply list_elem_of_split in Hreac as (before & after & Hsplit).
    rewrite Hsplit, foldl_app. simpl.
    rewrite setReactionDic_other.
    - by rewrite dict_getitem_set, decide_True.
    - intros later Hlater Heq.
      unfold distinct_reaction_ids in Hids.
      rewrite Hsplit, map_app in Hids. simpl in Hids.
      apply NoDup_app in Hids as (_ & _ & Hnd).
      apply NoDup_cons in Hnd as [Hnotin _]. apply Hnotin.
      rewrite <- Heq, map_is_fmap. by apply list_elem_of_fmap_2. }
  assert (Hrole : EnzymeMLDocJSON.typeDic self !! species_id
                  = Some EnzymeMLDocJSON.Educts).
  { rewrite Htd.
    apply (str_records_educt _ _ _ _ (EnzymeMLDocJSON.reaction_id reac) reac);
      [| done | | by symmetry].
    - rewrite <- HRD, Hdic, map_is_fmap.
      by apply (list_elem_of_fmap_2
                  (λ r, (EnzymeMLDocJSON.reaction_id r, r))).
    - rewrite <- HRD, Hdic, map_is_fmap. apply Forall_fmap, Forall_forall.
      intros other Hin. by apply Hother. }
  unfold EnzymeMLDocJSON.getData.
  rewrite Hlookup, bind_Ok. unfold getitem. rewrite Hrole, bind_Ok.
  rewrite getData_scan. cbn [app].
  by rewrite np_array_2d_Ok by (by apply same_length_rows).
Qed.

Lemma getData_of_educt_witness :
  ∃ reac,
    EnzymeMLDocJSON.reactions two_reactions !! 0%nat = Some reac
    ∧ EnzymeMLDocJSON.getData
        (EnzymeMLDocJSON.__init__ EnzymeMLDocJSON.empty_registries
           two_reactions).1
        (EnzymeMLDocJSON.reaction_id reac) "s1"
      = Ok (default [] (last (map EnzymeMLDocJSON.rep_time
                          (species_replicates (EnzymeMLDocJSON.educts reac)
                             "s1"))),
            map EnzymeMLDocJSON.rep_data
              (species_replicates (EnzymeMLDocJSON.educts reac) "s1")).
Proof.
  eexists. split; [reflexivity|].
  apply (getData_of_educt two_reactions).
  - vm_compute. reflexivity.
  - unfold distinct_reaction_ids. simpl. repeat constructor.
    + by intros ?%list_elem_of_singleton.
    + by intros ?%elem_of_nil.
  - simpl. by left.
  - simpl. by left.
  - intros other Hin. unfold two_reactions in Hin. simpl in Hin.
    repeat (apply elem_of_cons in Hin as [->|Hin];
            [ simpl; by intros ?%elem_of_nil | ]).
    by apply elem_of_nil in Hin.
  - intros r r' Hr Hr'. simpl in Hr, Hr'.
    apply list_elem_of_singleton in Hr as ->.
    by apply list_elem_of_singleton in Hr' as ->.
Defined.

(** ** The initial Km on constant data *)

Lemma gradient_of_constant_rows (t : list Qc) (data : list (list Qc)) :
  time_vector t → t ≠ [] → data ≠ [] →
  Forall (λ row, ∃ c, row = replicate (length t) c) data →
  _get_v t data = Ok (replicate (length t) 0).
Proof.
  intros Ht Hne Hdata Hconst.
  assert (Halign : aligned t data).
  { eapply Forall_impl; [exact Hconst|]. intros row [c ->].
    by rewrite length_replicate. }
  rewrite get_v_Ok by done. f_equal.
  apply list_eq. intros j. rewrite map_is_fmap, list_lookup_fmap.
  destruct (decide (j < length t)%nat) as [Hj|Hj].
  - rewrite lookup_seq_lt, lookup_replicate_2 by done. simpl. f_equal.
    rewrite sum_zero.
    + unfold Qcdiv. ring.
    + rewrite map_is_fmap. apply Forall_fmap.
      eapply Forall_impl; [exact Hconst|]. intros row [c ->]. simpl.
      by apply delta_constant.
  - rewrite lookup_seq_ge by lia. simpl. symmetry.
    apply lookup_replicate_None. lia.
Qed.

Lemma argmin_from_constant (n best_i k : nat) (x : Qc) :
  argmin_from best_i x k (replicate n x) = best_i.
Proof.
  revert k. induction n as [|n IH]; intros k; simpl; [done|].
  rewrite decide_False; [apply IH|].
  intros H. by apply Qclt_not_eq in H.
Qed.

Lemma column_mean_constant (t : list Qc) (data : list (list Qc)) (i j : nat) :
  Forall (λ row, ∃ c, row = replicate (length t) c) data →
  (i < length t)%nat → (j < length t)%nat →
  column_mean data i = column_mean data j.
Proof.
  intros Hconst Hi Hj. unfold column_mean, column. do 2 f_equal.
  apply map_ext_in. intros row Hrow%list_elem_of_In.
  rewrite Forall_forall in Hconst. destruct (Hconst row Hrow) as [c ->].
  rewrite !(nth_lookup_Some _ _ _ c); [done|by apply lookup_replicate_2..].
Qed.

(** When every replicate is constant over time the initial Km is the mean
    of the constants, equal to the initial S0 and to the initial bias: the
    bias is not subtracted. *)
Theorem initial_Km_of_constant_data (t : list Qc) (data : list (list Qc)) :
  time_vector t → t ≠ [] → data ≠ [] →
  Forall (λ row, ∃ c, row = replicate (length t) c) data →
  get_initial_Km t data = Ok (column_mean data 0)
  ∧ get_initial_S0 data = Ok (column_mean data 0)
  ∧ get_initial_bias data = Ok (column_mean data 0).
Proof.
  intros Ht Hne Hdata Hconst.
  assert (Halign : aligned t data).
  { eapply Forall_impl; [exact Hconst|]. intros row [c ->].
    by rewrite length_replicate. }
  assert (Hlen : ∃ n, length t = S n).
  { destruct t; [done|]. by eexists. }
  destruct Hlen as [n Hn].
  assert (Hbias : get_initial_bias data = Ok (column_mean data 0)).
  { rewrite (initial_bias_aligned t) by done. f_equal.
    apply (column_mean_constant t); [done|lia..]. }
  assert (HS0 : get_initial_S0 data = Ok (column_mean data 0)).
  { unfold get_initial_S0. rewrite (mean_axis0_aligned t), bind_Ok by done.
    by rewrite Hn. }
  split; [|by split].
  assert (Hv : _get_v t data = Ok (replicate (S n) 0)).
  { rewrite <- Hn. by apply gradient_of_constant_rows. }
  unfold get_initial_Km. rewrite Hv, bind_Ok, np_max_replicate, bind_Ok.
  cbn [np_where_eq where_eq_from replicate]. rewrite decide_True by done.
  rewrite (index_Ok _ _ 0%nat) by done. rewrite bind_Ok.
  cbn [drop].
  assert (Habs : map (λ x, Qcabs (x - 0 / dec 2 1)) (replicate (S n) 0)
                 = replicate (S n) 0).
  { rewrite map_is_fmap, fmap_replicate. f_equal.
    replace (0 - 0 / dec 2 1) with (Q2Qc 0) by (by field).
    apply Qcabs_0. }
  change (0 :: replicate n 0) with (replicate (S n) 0).
  rewrite Habs. cbn [np_argmin replicate].
  rewrite argmin_from_constant, bind_Ok.
  rewrite (mean_axis0_aligned t), bind_Ok by done.
  rewrite Hn. cbn [seq map Nat.add]. rewrite (index_Ok _ _ (column_mean data 0))
    by done.
  rewrite bind_Ok, Hbias, bind_Ok.
  rewrite decide_False; [done|].
  intros H. by apply Qclt_not_eq in H.
Qed.

Lemma initial_Km_of_constant_data_witness :
  get_initial_Km scenario_t [replicate 4 (dec 3 1); replicate 4 (dec 5 1)]
    = Ok (column_mean [replicate 4 (dec 3 1); replicate 4 (dec 5 1)] 0)
  ∧ get_initial_S0 [replicate 4 (dec 3 1); replicate 4 (dec 5 1)]
    = Ok (column_mean [replicate 4 (dec 3 1); replicate 4 (dec 5 1)] 0)
  ∧ get_initial_bias [replicate 4 (dec 3 1); replicate 4 (dec 5 1)]
    = Ok (column_mean [replicate 4 (dec 3 1); replicate 4 (dec 5 1)] 0).
Proof.
  apply initial_Km_of_constant_data.
  - exact scenario_time_vector.
  - done.
  - done.
  - repeat constructor; by eexists.
Defined.

(** ** Instances of the properties stated with inner hypotheses *)

Lemma convert_to_conc_monotone_witness :
  convert_to_conc (dec 1 1) ≤ convert_to_conc (dec 2 1).
Proof. apply (proj1 convert_to_conc_monotone). done. Defined.

Lemma fit_model_result_witness :
  (fit_model () odeint_constant _ minimize_once scenario_t scenario_data
     {[ "S0" := dec 2 1; "bias" := dec 1 10 ]} ()).2
  = minimize_once
      (λ p, _residual_with_bias () odeint_constant p scenario_t scenario_data ())
      {[ "S0" := dec 2 1; "bias" := dec 1 10 ]}.
Proof.
  apply (proj1 (proj2 (fit_model_result odeint_constant minimize_once
                         scenario_t scenario_data
                         {[ "S0" := dec 2 1; "bias" := dec 1 10 ]} ()))).
  - by eexists.
  - vm_compute. discriminate.
Defined.
